(** * Retention cleanup of the image-builder maintenance job

    A shallow embedding of [cmd/image-builder-maintenance/db.go]: the
    methods of [maintenanceDB] and the [DBCleanup] driver, written over an
    interface for the two external collaborators the file calls into (the
    pgx connection and the [time] package), followed by a relational
    instance of that interface (two tables, SQL semantics of the six
    statements, scheduled faults) and the properties of the cleanup run. *)

From Stdlib Require Import ZArith List String Bool Lia.
Import ListNotations.
Open Scope string_scope.
Open Scope list_scope.
Open Scope Z_scope.

(** ** Go values *)

(** Go's [error] values are modelled by their message ([err.Error()]);
    a nil error is [None]. *)
Definition error := string.

(** [fmt.Errorf(prefix + "%v", err)]: the message of the new error is the
    prefix followed by the message of the wrapped one. *)
Definition Errorf (prefix : string) (err : error) : error := String.append prefix err.

(** Go's [int] and [int64] are 64-bit two's complement integers. *)
Definition wrap64 (z : Z) : Z := (z + 2 ^ 63) mod 2 ^ 64 - 2 ^ 63.

Definition mulInt (a b : Z) : Z := wrap64 (a * b).

(** A value paired with an error, when only one of the two is meaningful. *)
Inductive result (A : Type) : Type :=
| Ok (a : A)
| Err (e : error).
Arguments Ok {A} a.
Arguments Err {A} e.

(** ** The SQL statements (the [const] block of db.go) *)
Inductive Sql : Type :=
| sqlDeleteClones          (* DELETE FROM clones WHERE compose_id in
                              (SELECT job_id FROM composes WHERE created_at < $1) *)
| sqlDeleteComposes        (* DELETE FROM composes WHERE created_at < $1 *)
| sqlExpiredClonesCount    (* SELECT COUNT( * ) FROM clones WHERE compose_id in
                              (SELECT job_id FROM composes WHERE created_at < $1) *)
| sqlExpiredComposesCount  (* SELECT COUNT( * ) FROM composes WHERE created_at < $1 *)
| sqlVacuumAnalyze         (* VACUUM ANALYZE *)
| sqlVacuumStats.          (* SELECT relname, ... FROM pg_stat_user_tables *)

(** One row of [sqlVacuumStats], as [rows.Scan] stores it in the fifteen
    variables of [LogVacuumStats]; the four timestamps are nullable. *)
Record StatRow (Time : Type) : Type := mkStatRow {
  relName : string;
  relSize : string;
  ins : Z; upd : Z; del : Z; live : Z; dead : Z;
  vc : Z; avc : Z; ac : Z; aac : Z;
  lvc : option Time; lavc : option Time; lan : option Time; laan : option Time
}.
Arguments mkStatRow {Time}.
Arguments relName {Time}.
Arguments relSize {Time}.
Arguments ins {Time}.
Arguments upd {Time}.
Arguments del {Time}.
Arguments live {Time}.
Arguments dead {Time}.
Arguments vc {Time}.
Arguments avc {Time}.
Arguments ac {Time}.
Arguments aac {Time}.
Arguments lvc {Time}.
Arguments lavc {Time}.
Arguments lan {Time}.
Arguments laan {Time}.

(** The cursor [pgx.Rows] handed back by [Conn.Query]: the rows that
    [rows.Next] will yield, each with the outcome of its [rows.Scan], and
    the value of [rows.Err()] once [Next] has returned false. *)
Record Rows (Time : Type) : Type := mkRows {
  fetched : list (result (StatRow Time));
  rowsErr : option error
}.
Arguments mkRows {Time}.
Arguments fetched {Time}.
Arguments rowsErr {Time}.

(** ** The external collaborators

    [W] is the state of everything outside the process (the database
    server, its sessions, the wall clock); [PgxConn] is a [*pgx.Conn]. *)
Class Env (W Time PgxConn : Type) : Type := {
  (* pgx.Connect(ctx, url) *)
  pgx_Connect : string -> W -> W * result PgxConn;
  (* conn.Close(ctx) *)
  pgx_Close : PgxConn -> W -> W * option error;
  (* conn.Exec(ctx, sql, args...): the tag's RowsAffected() and the error *)
  pgx_Exec : PgxConn -> Sql -> list Time -> W -> W * (Z * option error);
  (* conn.QueryRow(ctx, sql, args...).Scan(&count) *)
  pgx_QueryRow : PgxConn -> Sql -> list Time -> W -> W * result Z;
  (* conn.Query(ctx, sql) *)
  pgx_Query : PgxConn -> Sql -> W -> W * result (Rows Time);
  (* time.Now() *)
  time_Now : W -> W * Time;
  (* t.AddDate(years, months, days) *)
  time_AddDate : Time -> Z -> Z -> Z -> Time
}.

(** ** Observable events of a run *)

Inductive Level : Type := Info | Warning | Error.

Inductive LogVal (Time : Type) : Type :=
| VInt (z : Z)
| VStr (s : string)
| VErr (e : error)
| VTime (t : option Time).
Arguments VInt {Time} z.
Arguments VStr {Time} s.
Arguments VErr {Time} e.
Arguments VTime {Time} t.

Inductive Event (Time PgxConn : Type) : Type :=
| EvConnect (url : string) (r : result PgxConn)
| EvClose (c : PgxConn) (err : option error)
| EvExec (c : PgxConn) (sql : Sql) (args : list Time) (rows : Z) (err : option error)
| EvQueryRow (c : PgxConn) (sql : Sql) (args : list Time) (r : result Z)
| EvQuery (c : PgxConn) (sql : Sql) (err : option error)
| EvRowsClose
| EvNow (t : Time)
  (* logrus.Infof / Warningf / Errorf: format string and operands, in
     argument order *)
| EvLogf (lvl : Level) (format : string) (args : list (LogVal Time))
  (* logrus.WithFields(fields).Info(msg) *)
| EvLogFields (lvl : Level) (fields : list (string * LogVal Time)) (msg : string).
Arguments EvConnect {Time PgxConn}.
Arguments EvClose {Time PgxConn}.
Arguments EvExec {Time PgxConn}.
Arguments EvQueryRow {Time PgxConn}.
Arguments EvQuery {Time PgxConn}.
Arguments EvRowsClose {Time PgxConn}.
Arguments EvNow {Time PgxConn}.
Arguments EvLogf {Time PgxConn}.
Arguments EvLogFields {Time PgxConn}.

(** How one pass through the loop body hands control back. *)
Inductive LoopCtl : Type :=
| Continue               (* fall through to the next iteration *)
| Break                  (* [break] *)
| Return (err : error).  (* [return err] out of DBCleanup *)

(** How the [for] statement ends. *)
Inductive LoopExit : Type :=
| Broke                  (* left by [break] *)
| Aborted (err : error)  (* left by [return err] *)
| OutOfFuel.             (* the iteration budget of the model is spent *)

(** What an invocation of [DBCleanup] yields. *)
Inductive Outcome : Type :=
| Returned (err : option error)
| Running.               (* still inside the [for] loop when fuel ran out *)

Section Program.
Context {W Time PgxConn : Type} `{E : Env W Time PgxConn}.

(** Computations of the program: they transform the outside world and
    emit events, in chronological order. *)
Definition M (A : Type) : Type := W -> W * list (Event Time PgxConn) * A.

Definition ret {A} (a : A) : M A := fun w => (w, [], a).

Definition bind {A B} (m : M A) (f : A -> M B) : M B :=
  fun w =>
    let '(w1, t1, a) := m w in
    let '(w2, t2, b) := f a w1 in
    (w2, t1 ++ t2, b).

Definition emit (e : Event Time PgxConn) : M unit := fun w => (w, [e], tt).

Definition world_of {A} (r : W * list (Event Time PgxConn) * A) : W := fst (fst r).
Definition trace_of {A} (r : W * list (Event Time PgxConn) * A) : list (Event Time PgxConn) :=
  snd (fst r).
Definition value_of {A} (r : W * list (Event Time PgxConn) * A) : A := snd r.

Local Notation "x <- m ;; k" := (bind m (fun x => k))
  (at level 61, m at next level, right associativity).
Local Notation "m ;;; k" := (bind m (fun _ => k))
  (at level 61, right associativity).

(** *** Calls into the collaborators, each leaving its event *)

Definition Connect (url : string) : M (result PgxConn) :=
  fun w => let '(w', r) := pgx_Connect url w in (w', [EvConnect url r], r).

Definition ConnClose (c : PgxConn) : M (option error) :=
  fun w => let '(w', r) := pgx_Close c w in (w', [EvClose c r], r).

Definition Exec (c : PgxConn) (sql : Sql) (args : list Time) : M (Z * option error) :=
  fun w =>
    let '(w', (n, err)) := pgx_Exec c sql args w in
    (w', [EvExec c sql args n err], (n, err)).

Definition QueryRowScan (c : PgxConn) (sql : Sql) (args : list Time) : M (result Z) :=
  fun w => let '(w', r) := pgx_QueryRow c sql args w in (w', [EvQueryRow c sql args r], r).

Definition Query (c : PgxConn) (sql : Sql) : M (result (Rows Time)) :=
  fun w =>
    let '(w', r) := pgx_Query c sql w in
    (w', [EvQuery c sql (match r with Ok _ => None | Err e => Some e end)], r).

Definition Now : M Time :=
  fun w => let '(w', t) := time_Now w in (w', [EvNow t], t).

Definition logf (lvl : Level) (format : string) (args : list (LogVal Time)) : M unit :=
  emit (EvLogf lvl format args).

(** *** type maintenanceDB struct { Conn *pgx.Conn } *)
Record maintenanceDB : Type := { Conn : PgxConn }.

(** func newDB(dbURL string) (maintenanceDB, error) *)
Definition newDB (dbURL : string) : M (result maintenanceDB) :=
  r <- Connect dbURL ;;
  match r with
  | Err err => ret (Err err)
  | Ok conn => ret (Ok {| Conn := conn |})
  end.

(** func (d *maintenanceDB) Close() error *)
Definition Close (d : maintenanceDB) : M (option error) :=
  ConnClose (Conn d).

(** func (d *maintenanceDB) DeleteClones(emailRetentionDate time.Time) (int64, error) *)
Definition DeleteClones (d : maintenanceDB) (emailRetentionDate : Time)
  : M (Z * option error) :=
  r <- Exec (Conn d) sqlDeleteClones [emailRetentionDate] ;;
  match r with
  | (tag, Some err) => ret (tag, Some (Errorf "Error deleting clones: " err))
  | (tag, None) => ret (tag, None)
  end.

(** func (d *maintenanceDB) DeleteComposes(emailRetentionDate time.Time) (int64, error) *)
Definition DeleteComposes (d : maintenanceDB) (emailRetentionDate : Time)
  : M (Z * option error) :=
  r <- Exec (Conn d) sqlDeleteComposes [emailRetentionDate] ;;
  match r with
  | (tag, Some err) => ret (tag, Some (Errorf "Error deleting composes: " err))
  | (tag, None) => ret (tag, None)
  end.

(** func (d *maintenanceDB) ExpiredClonesCount(emailRetentionDate time.Time) (int64, error) *)
Definition ExpiredClonesCount (d : maintenanceDB) (emailRetentionDate : Time)
  : M (Z * option error) :=
  r <- QueryRowScan (Conn d) sqlExpiredClonesCount [emailRetentionDate] ;;
  match r with
  | Err err => ret (0, Some err)
  | Ok count => ret (count, None)
  end.

(** func (d *maintenanceDB) ExpiredComposesCount(emailRetentionDate time.Time) (int64, error) *)
Definition ExpiredComposesCount (d : maintenanceDB) (emailRetentionDate : Time)
  : M (Z * option error) :=
  r <- QueryRowScan (Conn d) sqlExpiredComposesCount [emailRetentionDate] ;;
  match r with
  | Err err => ret (0, Some err)
  | Ok count => ret (count, None)
  end.

(** func (d *maintenanceDB) VacuumAnalyze() error *)
Definition VacuumAnalyze (d : maintenanceDB) : M (option error) :=
  r <- Exec (Conn d) sqlVacuumAnalyze [] ;;
  match r with
  | (_, Some err) => ret (Some (Errorf "Error running VACUUM ANALYZE: " err))
  | (_, None) => ret None
  end.

(** The [logrus.Fields] literal of LogVacuumStats. *)
Definition statFields (r : StatRow Time) : list (string * LogVal Time) :=
  [ ("table_name", VStr (relName r));
    ("table_size", VStr (relSize r));
    ("tuples_inserted", VInt (ins r));
    ("tuples_updated", VInt (upd r));
    ("tuples_deleted", VInt (del r));
    ("tuples_live", VInt (live r));
    ("tuples_dead", VInt (dead r));
    ("vacuum_count", VInt (vc r));
    ("autovacuum_count", VInt (avc r));
    ("last_vacuum", VTime (lvc r));
    ("last_autovacuum", VTime (lavc r));
    ("analyze_count", VInt (ac r));
    ("autoanalyze_count", VInt (aac r));
    ("last_analyze", VTime (lan r));
    ("last_autoanalyze", VTime (laan r)) ].

(** The [for rows.Next() { ... }] loop of LogVacuumStats and the code
    after it, with the local [deleted] threaded through. [None] in the
    first component of the answer would be a fall-through; the function
    always ends in one of the three [return]s. *)
Fixpoint statsLoop (pending : list (result (StatRow Time))) (final : option error)
         (deleted : Z) : M (Z * option error) :=
  match pending with
  | [] =>
      match final with
      | Some err => ret (0, Some err)        (* rows.Err() != nil *)
      | None => ret (deleted, None)
      end
  | Err err :: _ => ret (0, Some err)        (* rows.Scan failed *)
  | Ok row :: rest =>
      emit (EvLogFields Info (statFields row) "Vacuum and analyze stats for table") ;;;
      statsLoop rest final deleted
  end.

(** func (d *maintenanceDB) LogVacuumStats() (int64, error) *)
Definition LogVacuumStats (d : maintenanceDB) : M (Z * option error) :=
  r <- Query (Conn d) sqlVacuumStats ;;
  match r with
  | Err err => ret (0, Some (Errorf "Error querying vacuum stats: " err))
  | Ok rows =>
      (* defer rows.Close() *)
      res <- statsLoop (fetched rows) (rowsErr rows) 0 ;;
      emit EvRowsClose ;;;
      ret res
  end.

(** One pass through the body of the [for] loop of DBCleanup. *)
Definition loopBody (db : maintenanceDB) (dryRun : bool) (emailRetentionDate : Time)
  : M LoopCtl :=
  if dryRun then
    rc <- ExpiredClonesCount db emailRetentionDate ;;
    let '(rowsClones, err) := rc in
    match err with
    | Some e => logf Warning "Error querying expired clones: %v" [VErr e]
    | None => ret tt
    end ;;;
    r <- ExpiredComposesCount db emailRetentionDate ;;
    let '(rows, err) := r in
    match err with
    | Some e => logf Warning "Error querying expired composes: %v" [VErr e]
    | None => ret tt
    end ;;;
    logf Info "Dryrun, expired composes count: %d (affecting %d clones)"
         [VInt rows; VInt rowsClones] ;;;
    ret Break
  else
    r <- DeleteClones db emailRetentionDate ;;
    match r with
    | (rows, Some err) =>
        logf Error "Error deleting clones: %v, %d rows affected" [VInt rows; VErr err] ;;;
        ret (Return err)
    | (_, None) =>
        r <- DeleteComposes db emailRetentionDate ;;
        match r with
        | (rows, Some err) =>
            logf Error "Error deleting composes: %v, %d rows affected"
                 [VInt rows; VErr err] ;;;
            ret (Return err)
        | (rows, None) =>
            err <- VacuumAnalyze db ;;
            match err with
            | Some err =>
                logf Error "Error running vacuum analyze: %v" [VErr err] ;;;
                ret (Return err)
            | None =>
                if rows =? 0 then ret Break
                else
                  logf Info "Deleted results for %d" [VInt rows] ;;;
                  ret Continue
            end
        end
    end.

(** The [for { ... }] statement of DBCleanup; [fuel] bounds the number
    of iterations the model follows. *)
Fixpoint cleanupLoop (fuel : nat) (db : maintenanceDB) (dryRun : bool)
         (emailRetentionDate : Time) : M LoopExit :=
  match fuel with
  | O => ret OutOfFuel
  | S fuel' =>
      ctl <- loopBody db dryRun emailRetentionDate ;;
      match ctl with
      | Continue => cleanupLoop fuel' db dryRun emailRetentionDate
      | Break => ret Broke
      | Return err => ret (Aborted err)
      end
  end.

(** [_, err = db.LogVacuumStats()] followed by the error log. *)
Definition reportStats (db : maintenanceDB) : M unit :=
  r <- LogVacuumStats db ;;
  match snd r with
  | Some err => logf Error "Error running vacuum stats: %v" [VErr err]
  | None => ret tt
  end.

(** [time.Now().AddDate(0, ClonesRetentionMonths*-1, 0)] *)
Definition retentionDate (now : Time) (ClonesRetentionMonths : Z) : Time :=
  time_AddDate now 0 (mulInt ClonesRetentionMonths (-1)) 0.

(** func DBCleanup(dbURL string, dryRun bool, ClonesRetentionMonths int) error *)
Definition DBCleanup (fuel : nat) (dbURL : string) (dryRun : bool)
           (ClonesRetentionMonths : Z) : M Outcome :=
  r <- newDB dbURL ;;
  match r with
  | Err err => ret (Returned (Some err))
  | Ok db =>
      reportStats db ;;;
      now <- Now ;;
      let emailRetentionDate := retentionDate now ClonesRetentionMonths in
      ex <- cleanupLoop fuel db dryRun emailRetentionDate ;;
      match ex with
      | Aborted err => ret (Returned (Some err))
      | OutOfFuel => ret Running
      | Broke =>
          reportStats db ;;;
          ret (Returned None)
      end
  end.

End Program.

Arguments M : clear implicits.
Arguments maintenanceDB : clear implicits.

(** ** Classifying events *)

Section Events.
Context {Time PgxConn : Type}.
Implicit Type e : Event Time PgxConn.

Definition is_close e : bool :=
  match e with EvClose _ _ => true | _ => false end.

(** [Conn.Exec] is the only way the program sends a mutating statement. *)
Definition is_exec e : bool :=
  match e with EvExec _ _ _ _ _ => true | _ => false end.

Definition is_now e : bool :=
  match e with EvNow _ => true | _ => false end.

(** Events of the statistics report: the statistics query, its cursor
    and log lines. *)
Definition is_report e : bool :=
  match e with
  | EvQuery _ sqlVacuumStats _ | EvRowsClose | EvLogf _ _ _ | EvLogFields _ _ _ => true
  | _ => false
  end.


(** The statements that take the retention cutoff as [$1] carry [cutoff],
    and the clock is not read. *)
Definition uses_cutoff (cutoff : Time) e : Prop :=
  match e with
  | EvExec _ sqlVacuumAnalyze args _ _ => args = []
  | EvExec _ _ args _ _ => args = [cutoff]
  | EvQueryRow _ _ args _ => args = [cutoff]
  | EvNow _ => False
  | _ => True
  end.

(** The three calls of one complete, successful pass through the live
    loop body, with the row counts of their command tags. *)
Definition iteration (c : PgxConn) (cutoff : Time) (r1 r2 r3 : Z)
  : list (Event Time PgxConn) :=
  [ EvExec c sqlDeleteClones [cutoff] r1 None;
    EvExec c sqlDeleteComposes [cutoff] r2 None;
    EvExec c sqlVacuumAnalyze [] r3 None ].

(** The live loop as the specification words it: repeat (delete clones;
    delete composes; reclaim) until the compose deletion affects zero
    rows; a failing call ends the run with its error. *)
Inductive LiveLoop (c : PgxConn) (cutoff : Time)
  : list (Event Time PgxConn) -> LoopExit -> Prop :=
| LL_stop r1 r3 :
    LiveLoop c cutoff (iteration c cutoff r1 0 r3) Broke
| LL_again r1 r2 r3 rest ex :
    r2 <> 0 ->
    LiveLoop c cutoff rest ex ->
    LiveLoop c cutoff
      (iteration c cutoff r1 r2 r3 ++ EvLogf Info "Deleted results for %d" [VInt r2] :: rest) ex
| LL_pending :
    LiveLoop c cutoff [] OutOfFuel
| LL_clones_failed r1 err :
    LiveLoop c cutoff
      [ EvExec c sqlDeleteClones [cutoff] r1 (Some err);
        EvLogf Error "Error deleting clones: %v, %d rows affected"
               [VInt r1; VErr (Errorf "Error deleting clones: " err)] ]
      (Aborted (Errorf "Error deleting clones: " err))
| LL_composes_failed r1 r2 err :
    LiveLoop c cutoff
      [ EvExec c sqlDeleteClones [cutoff] r1 None;
        EvExec c sqlDeleteComposes [cutoff] r2 (Some err);
        EvLogf Error "Error deleting composes: %v, %d rows affected"
               [VInt r2; VErr (Errorf "Error deleting composes: " err)] ]
      (Aborted (Errorf "Error deleting composes: " err))
| LL_reclaim_failed r1 r2 r3 err :
    LiveLoop c cutoff
      [ EvExec c sqlDeleteClones [cutoff] r1 None;
        EvExec c sqlDeleteComposes [cutoff] r2 None;
        EvExec c sqlVacuumAnalyze [] r3 (Some err);
        EvLogf Error "Error running vacuum analyze: %v"
               [VErr (Errorf "Error running VACUUM ANALYZE: " err)] ]
      (Aborted (Errorf "Error running VACUUM ANALYZE: " err)).

(** The trace of the dry-run pass: the two counts, a warning after each
    one that failed, and the report line. *)
Definition warn_if (format : string) (r : result Z) : list (Event Time PgxConn) :=
  match r with
  | Err err => [EvLogf Warning format [VErr err]]
  | Ok _ => []
  end.

Definition count_of (r : result Z) : Z :=
  match r with Ok n => n | Err _ => 0 end.

Definition dryRunTrace (c : PgxConn) (cutoff : Time) (rc r : result Z)
  : list (Event Time PgxConn) :=
  EvQueryRow c sqlExpiredClonesCount [cutoff] rc
    :: warn_if "Error querying expired clones: %v" rc
    ++ EvQueryRow c sqlExpiredComposesCount [cutoff] r
    :: warn_if "Error querying expired composes: %v" r
    ++ [EvLogf Info "Dryrun, expired composes count: %d (affecting %d clones)"
               [VInt (count_of r); VInt (count_of rc)]].

(** The events the live loop and the dry-run pass are made of. *)
Definition live_event (c : PgxConn) (cutoff : Time) e : Prop :=
  match e with
  | EvExec c' sqlDeleteClones args _ _ | EvExec c' sqlDeleteComposes args _ _ =>
      c' = c /\ args = [cutoff]
  | EvExec c' sqlVacuumAnalyze args _ _ => c' = c /\ args = []
  | EvLogf _ _ _ => True
  | _ => False
  end.

Definition dry_event (c : PgxConn) (cutoff : Time) e : Prop :=
  match e with
  | EvQueryRow c' sqlExpiredClonesCount args _
  | EvQueryRow c' sqlExpiredComposesCount args _ => c' = c /\ args = [cutoff]
  | EvLogf _ _ _ => True
  | _ => False
  end.


(** The calls that take the retention cutoff as their parameter. *)
Definition is_cutoff_call e : bool :=
  match e with
  | EvExec _ sqlDeleteClones _ _ _ | EvExec _ sqlDeleteComposes _ _ _
  | EvQueryRow _ _ _ _ => true
  | _ => false
  end.

(** A deletion that succeeded reports no row. *)
Definition deletes_nothing e : Prop :=
  match e with
  | EvExec _ sqlDeleteClones _ n None | EvExec _ sqlDeleteComposes _ n None => n = 0
  | _ => True
  end.

Definition is_delete_clones e : bool :=
  match e with EvExec _ sqlDeleteClones _ _ _ => true | _ => false end.

(** The number of passes through the live loop body a trace shows:
    every pass starts with the deletion of clones. *)
Definition iterations (t : list (Event Time PgxConn)) : nat :=
  List.length (filter is_delete_clones t).

End Events.

(** ** Traces as executions, and the shape of a run *)

Section Semantics.
Context {W Time PgxConn : Type} `{E : Env W Time PgxConn}.

Definition reports (t : list (Event Time PgxConn)) : Prop :=
  Forall (fun e => is_report e = true) t.

(** *** Traces are executions of the environment

    [step w e w']: the environment, in state [w], answers the call
    recorded in [e] as recorded and moves to [w']; log lines and the
    release of a cursor leave it where it is. *)
Inductive step (w : W) : Event Time PgxConn -> W -> Prop :=
| step_connect url w' r :
    pgx_Connect url w = (w', r) -> step w (EvConnect url r) w'
| step_close c w' err :
    pgx_Close c w = (w', err) -> step w (EvClose c err) w'
| step_exec c sql args w' n err :
    pgx_Exec c sql args w = (w', (n, err)) -> step w (EvExec c sql args n err) w'
| step_queryrow c sql args w' r :
    pgx_QueryRow c sql args w = (w', r) -> step w (EvQueryRow c sql args r) w'
| step_query c sql w' r :
    pgx_Query c sql w = (w', r) ->
    step w (EvQuery c sql (match r with Ok _ => None | Err e => Some e end)) w'
| step_now w' tm :
    time_Now w = (w', tm) -> step w (EvNow tm) w'
| step_rowsclose : step w EvRowsClose w
| step_logf lvl format args : step w (EvLogf lvl format args) w
| step_logfields lvl fields msg : step w (EvLogFields lvl fields msg) w.

Inductive steps : W -> list (Event Time PgxConn) -> W -> Prop :=
| steps_nil w : steps w [] w
| steps_cons w e w1 t w2 : step w e w1 -> steps w1 t w2 -> steps w (e :: t) w2.

Definition sound {A} (m : M W Time PgxConn A) : Prop :=
  forall w, steps w (trace_of (m w)) (world_of (m w)).

(** One pass through the live loop body. *)
Inductive LiveBody (c : PgxConn) (cutoff : Time)
  : list (Event Time PgxConn) -> LoopCtl -> Prop :=
| LB_break r1 r3 :
    LiveBody c cutoff (iteration c cutoff r1 0 r3) Break
| LB_continue r1 r2 r3 :
    r2 <> 0 ->
    LiveBody c cutoff
      (iteration c cutoff r1 r2 r3 ++ [EvLogf Info "Deleted results for %d" [VInt r2]])
      Continue
| LB_clones_failed r1 err :
    LiveBody c cutoff
      [ EvExec c sqlDeleteClones [cutoff] r1 (Some err);
        EvLogf Error "Error deleting clones: %v, %d rows affected"
               [VInt r1; VErr (Errorf "Error deleting clones: " err)] ]
      (Return (Errorf "Error deleting clones: " err))
| LB_composes_failed r1 r2 err :
    LiveBody c cutoff
      [ EvExec c sqlDeleteClones [cutoff] r1 None;
        EvExec c sqlDeleteComposes [cutoff] r2 (Some err);
        EvLogf Error "Error deleting composes: %v, %d rows affected"
               [VInt r2; VErr (Errorf "Error deleting composes: " err)] ]
      (Return (Errorf "Error deleting composes: " err))
| LB_reclaim_failed r1 r2 r3 err :
    LiveBody c cutoff
      [ EvExec c sqlDeleteClones [cutoff] r1 None;
        EvExec c sqlDeleteComposes [cutoff] r2 None;
        EvExec c sqlVacuumAnalyze [] r3 (Some err);
        EvLogf Error "Error running vacuum analyze: %v"
               [VErr (Errorf "Error running VACUUM ANALYZE: " err)] ]
      (Return (Errorf "Error running VACUUM ANALYZE: " err)).

(** The run as a whole: either the connection fails and nothing else
    happens, or the trace is the connection, a statistics report, the
    reading of the clock, the loop on the cutoff computed from it, and,
    when the loop is left by [break], a second statistics report. *)
Definition runShape (fuel : nat) (url : string) (dryRun : bool) (months : Z)
           (t : list (Event Time PgxConn)) (out : Outcome) : Prop :=
  (exists err, t = [EvConnect url (Err err)] /\ out = Returned (Some err))
  \/ (exists c t1 now w' t3,
        let l := cleanupLoop fuel {| Conn := c |} dryRun (retentionDate now months) w' in
        t = EvConnect url (Ok c) :: t1 ++ EvNow now :: trace_of l ++ t3
        /\ reports t1
        /\ match value_of l with
           | Broke => reports t3 /\ out = Returned None
           | Aborted err => t3 = [] /\ out = Returned (Some err)
           | OutOfFuel => t3 = [] /\ out = Running
           end).

End Semantics.

(** ** A relational environment

    The database holds the two tables the statements touch; nothing else
    writes to it during a run (a static dataset).  Timestamps are seconds
    since the Unix epoch, in UTC.  Every call may fail as scheduled in
    [faults]; the rows of the statistics view are not derived from the
    tables but scheduled in [stats]. *)
Module Rel.

Definition uuid := string.

(** A row of [composes]. *)
Record Compose : Type := mkCompose { job_id : uuid; created_at : Z }.

(** A row of [clones]; [compose_id] refers to [composes.job_id]. *)
Record Clone : Type := mkClone { clone_id : uuid; compose_id : uuid }.

(** A scheduled failure of one call: whether the statement took effect
    on the server all the same, the row count of the command tag handed
    back with the error, and the error. *)
Record Fault : Type := mkFault { applied : bool; tag_rows : Z; fault_err : error }.

Record World : Type := mkWorld {
  composes : list Compose;
  clones : list Clone;
  sessions : list nat;             (* connections that are open *)
  next_session : nat;
  clock : Z;                       (* wall clock *)
  tick : Z;                        (* time every call takes *)
  faults : list (option Fault);    (* one entry per Connect/Close/Exec/QueryRow *)
  stats : list (result (Rows Z))   (* one entry per Query *)
}.

(** *** The WHERE clauses *)

(** [created_at < $1] *)
Definition expired (cutoff : Z) (c : Compose) : bool := created_at c <? cutoff.

(** [SELECT job_id FROM composes WHERE created_at < $1] *)
Definition expiredIds (cutoff : Z) (cs : list Compose) : list uuid :=
  map job_id (filter (expired cutoff) cs).

(** [compose_id in (...)] *)
Definition references (ids : list uuid) (cl : Clone) : bool :=
  existsb (String.eqb (compose_id cl)) ids.

Definition count {A} (p : A -> bool) (l : list A) : Z :=
  Z.of_nat (List.length (filter p l)).

(** *** The clock and the schedules *)

Definition advance (w : World) : World :=
  mkWorld (composes w) (clones w) (sessions w) (next_session w)
          (clock w + tick w) (tick w) (faults w) (stats w).

Definition popFault (w : World) : World * option Fault :=
  match faults w with
  | [] => (w, None)
  | f :: rest =>
      (mkWorld (composes w) (clones w) (sessions w) (next_session w)
               (clock w) (tick w) rest (stats w), f)
  end.

Definition popStats (w : World) : World * result (Rows Z) :=
  match stats w with
  | [] => (w, Ok (mkRows [] None))
  | r :: rest =>
      (mkWorld (composes w) (clones w) (sessions w) (next_session w)
               (clock w) (tick w) (faults w) rest, r)
  end.

Definition setTables (w : World) (cs : list Compose) (cls : list Clone) : World :=
  mkWorld cs cls (sessions w) (next_session w) (clock w) (tick w) (faults w) (stats w).

Definition isOpen (c : nat) (w : World) : bool := existsb (Nat.eqb c) (sessions w).

(** *** The statements *)

(** The tables a statement sent through [Exec] leaves behind and the
    number of rows it affects; [None] when the server rejects it. *)
Definition execute (sql : Sql) (args : list Z) (cs : list Compose) (cls : list Clone)
  : option (list Compose * list Clone * Z) :=
  match sql, args with
  | sqlDeleteClones, [cutoff] =>
      let ids := expiredIds cutoff cs in
      Some (cs, filter (fun cl => negb (references ids cl)) cls, count (references ids) cls)
  | sqlDeleteComposes, [cutoff] =>
      Some (filter (fun c => negb (expired cutoff c)) cs, cls, count (expired cutoff) cs)
  | sqlVacuumAnalyze, [] => Some (cs, cls, 0)
  | _, _ => None
  end.

(** The single value of a counting query. *)
Definition evaluate (sql : Sql) (args : list Z) (w : World) : option Z :=
  match sql, args with
  | sqlExpiredClonesCount, [cutoff] =>
      Some (count (references (expiredIds cutoff (composes w))) (clones w))
  | sqlExpiredComposesCount, [cutoff] =>
      Some (count (expired cutoff) (composes w))
  | _, _ => None
  end.

Definition connect (url : string) (w : World) : World * result nat :=
  let '(w1, f) := popFault (advance w) in
  match f with
  | Some f => (w1, Err (fault_err f))
  | None =>
      let c := next_session w1 in
      (mkWorld (composes w1) (clones w1) (c :: sessions w1) (S c)
               (clock w1) (tick w1) (faults w1) (stats w1), Ok c)
  end.

Definition close (c : nat) (w : World) : World * option error :=
  let '(w1, f) := popFault (advance w) in
  (mkWorld (composes w1) (clones w1)
           (filter (fun s => negb (Nat.eqb c s)) (sessions w1)) (next_session w1)
           (clock w1) (tick w1) (faults w1) (stats w1),
   option_map fault_err f).

Definition exec (c : nat) (sql : Sql) (args : list Z) (w : World)
  : World * (Z * option error) :=
  if isOpen c w then
    let '(w1, f) := popFault (advance w) in
    match f with
    | Some f =>
        (if applied f
         then match execute sql args (composes w1) (clones w1) with
              | Some (cs, cls, _) => setTables w1 cs cls
              | None => w1
              end
         else w1,
         (tag_rows f, Some (fault_err f)))
    | None =>
        match execute sql args (composes w1) (clones w1) with
        | Some (cs, cls, n) => (setTables w1 cs cls, (n, None))
        | None => (w1, (0, Some "ERROR: statement rejected"))
        end
    end
  else (w, (0, Some "conn closed")).

Definition queryRow (c : nat) (sql : Sql) (args : list Z) (w : World) : World * result Z :=
  if isOpen c w then
    let '(w1, f) := popFault (advance w) in
    match f with
    | Some f => (w1, Err (fault_err f))
    | None =>
        match evaluate sql args w1 with
        | Some n => (w1, Ok n)
        | None => (w1, Err "ERROR: statement rejected")
        end
    end
  else (w, Err "conn closed").

Definition query (c : nat) (sql : Sql) (w : World) : World * result (Rows Z) :=
  if isOpen c w then
    match sql with
    | sqlVacuumStats => popStats (advance w)
    | _ => (advance w, Err "ERROR: statement rejected")
    end
  else (w, Err "conn closed").

Definition now (w : World) : World * Z := (advance w, clock w).

(** *** Calendar arithmetic of [time.Time.AddDate], in UTC

    [AddDate] adds to the civil date of its receiver and normalises
    the result the way [time.Date] does: months overflow into years,
    days overflow into months. *)

(** Days since 1970-01-01 of a civil date whose month is in range; the
    day may lie outside the month. *)
Definition daysFromCivil (y m d : Z) : Z :=
  let y' := if m <=? 2 then y - 1 else y in
  let era := y' / 400 in
  let yoe := y' - era * 400 in
  let doy := (153 * (if m >? 2 then m - 3 else m + 9) + 2) / 5 + d - 1 in
  let doe := yoe * 365 + yoe / 4 - yoe / 100 + doy in
  era * 146097 + doe - 719468.

Definition civilFromDays (z : Z) : Z * Z * Z :=
  let z := z + 719468 in
  let era := z / 146097 in
  let doe := z - era * 146097 in
  let yoe := (doe - doe / 1460 + doe / 36524 - doe / 146096) / 365 in
  let doy := doe - (365 * yoe + yoe / 4 - yoe / 100) in
  let mp := (5 * doy + 2) / 153 in
  let d := doy - (153 * mp + 2) / 5 + 1 in
  let m := if mp <? 10 then mp + 3 else mp - 9 in
  (if m <=? 2 then yoe + era * 400 + 1 else yoe + era * 400, m, d).

Definition AddDate (t years months days : Z) : Z :=
  let '(y, m, d) := civilFromDays (t / 86400) in
  let m0 := m - 1 + months in
  daysFromCivil (y + years + m0 / 12) (m0 mod 12 + 1) (d + days) * 86400 + t mod 86400.

#[export] Instance env : Env World Z nat := {|
  pgx_Connect := connect;
  pgx_Close := close;
  pgx_Exec := exec;
  pgx_QueryRow := queryRow;
  pgx_Query := query;
  time_Now := now;
  time_AddDate := AddDate
|}.

End Rel.

(** ** Predicates on the tables and on traces *)

Section Vocabulary.
Import Rel.

(** No compose of [cs] was created before [cutoff]. *)
Definition noExpired (cutoff : Z) (cs : list Compose) : Prop :=
  forall c, In c cs -> created_at c < cutoff -> False.

(** No clone refers to a compose of [cs] created before [cutoff]. *)
Definition noReference (cutoff : Z) (cs : list Compose) (cls : list Clone) : Prop :=
  forall cl c, In cl cls -> In c cs -> created_at c < cutoff ->
               compose_id cl = job_id c -> False.

(** A world without scheduled faults in which connection [c] is open. *)
Definition healthy (c : nat) (w : World) : Prop := faults w = [] /\ In c (sessions w).

End Vocabulary.

(** The cutoff a run worked with, read off its trace: the first reading
    of the clock, shifted by the retention window. *)
Definition cutoffOf {W Time PgxConn : Type} `{E : Env W Time PgxConn}
           (months : Z) (t : list (Event Time PgxConn)) : option Time :=
  match find is_now t with
  | Some (EvNow tm) => Some (retentionDate tm months)
  | _ => None
  end.

(** The deletions of a trace take [cutoff] as their parameter. *)
Definition deletes_before {Time PgxConn : Type} (cutoff : Time) (e : Event Time PgxConn)
  : Prop :=
  match e with
  | EvExec _ sqlDeleteClones args _ _ | EvExec _ sqlDeleteComposes args _ _ => args = [cutoff]
  | _ => True
  end.


(** ** Sample datasets

    Retention of one month, the clock at 2026-10-31 13:20:00 UTC: one
    compose of 2026-08-31 with one clone, one compose of today with one
    clone. *)
Definition sampleTables : list Rel.Compose * list Rel.Clone :=
  ([Rel.mkCompose "old" 1788182400; Rel.mkCompose "fresh" 1793404800],
   [Rel.mkClone "k1" "old"; Rel.mkClone "k2" "fresh"]).

Definition sampleWorld (tick : Z) (faults : list (option Rel.Fault))
           (stats : list (result (Rows Z))) : Rel.World :=
  Rel.mkWorld (fst sampleTables) (snd sampleTables) [] 0 1793452800 tick faults stats.

(** The third call of the run (the deletion of composes) fails after the
    server has removed the rows, and the tag says 1. *)
Definition composesFault : list (option Rel.Fault) :=
  [None; None; Some (Rel.mkFault true 1 "connection reset")].

(** Both statistics reports and both counts of a dry run fail; no
    connection, deletion or reclaim does; the run returns no error. *)
Definition observationalFailures : Rel.World :=
  sampleWorld 1
    [None; Some (Rel.mkFault false 0 "timeout"); Some (Rel.mkFault false 0 "timeout")]
    [Err "stats unavailable";
     Ok (mkRows [Ok (mkStatRow "composes" "16 kB" 2 0 0 2 0 0 0 0 0 None None None None);
                 Err "scan failed"] None)].


(** ** Closed forms of the statistics report *)

Section ReportVocabulary.
Context {Time PgxConn : Type}.

(** The rows [rows.Scan] stored before the first scan that fails. *)
Fixpoint scanned (pending : list (result (StatRow Time))) : list (StatRow Time) :=
  match pending with
  | Ok row :: rest => row :: scanned rest
  | _ => []
  end.

(** The error of the first [rows.Scan] that fails, if one does. *)
Fixpoint scanError (pending : list (result (StatRow Time))) : option error :=
  match pending with
  | [] => None
  | Ok _ :: rest => scanError rest
  | Err err :: _ => Some err
  end.

Definition scans (r : result (StatRow Time)) : bool :=
  match r with Ok _ => true | Err _ => false end.

Definition statsRecord (row : StatRow Time) : Event Time PgxConn :=
  EvLogFields Info (statFields row) "Vacuum and analyze stats for table".

Definition is_stats_query (e : Event Time PgxConn) : bool :=
  match e with EvQuery _ sqlVacuumStats _ => true | _ => false end.

(** How often a trace shows the statistics query. *)
Definition statsQueries (t : list (Event Time PgxConn)) : nat :=
  List.length (filter is_stats_query t).

End ReportVocabulary.

(** Every clone refers to a compose that is there: the foreign key of
    [clones.compose_id] into [composes.job_id]. *)
Definition integrity (cs : list Rel.Compose) (cls : list Rel.Clone) : Prop :=
  forall cl, In cl cls -> exists c, In c cs /\ Rel.job_id c = Rel.compose_id cl.

(** Tables [cs'], [cls'] still hold every unexpired compose of [cs] and
    every clone of [cls] that refers to no expired compose of [cs]. *)
Definition keeps (cutoff : Z) (cs : list Rel.Compose) (cls : list Rel.Clone)
           (cs' : list Rel.Compose) (cls' : list Rel.Clone) : Prop :=
  (forall c, In c cs -> Rel.expired cutoff c = false -> In c cs')
  /\ (forall cl, In cl cls ->
                 Rel.references (Rel.expiredIds cutoff cs) cl = false -> In cl cls').

(** The sample dataset behind an open connection 0, with the statistics
    query answering [rows]. *)
Definition connectedWorld (rows : result (Rows Z)) : Rel.World :=
  Rel.mkWorld (fst sampleTables) (snd sampleTables) [0%nat] 1 1793452800 1 [] [rows].

(** The first call of the run, the connection, is refused. *)
Definition refusedWorld : Rel.World :=
  sampleWorld 1 [Some (Rel.mkFault false 0 "connection refused")] [].

(** Two tables rows are scanned and logged, the third fails to scan, a
    fourth is never reached. *)
Definition sampleRows : Rows Z :=
  mkRows [Ok (mkStatRow "composes" "16 kB" 2 0 0 2 0 0 0 0 0 None None None None);
          Ok (mkStatRow "clones" "8192 bytes" 2 0 0 2 0 1 0 1 0 (Some 1793000000) None None None);
          Err "scan failed";
          Ok (mkStatRow "blueprints" "0 bytes" 0 0 0 0 0 0 0 0 0 None None None None)]
         (Some "cursor broken").

(** * Proofs *)

(** ** Properties that hold against every environment *)

Section Generic.
Context {W Time PgxConn : Type} `{E : Env W Time PgxConn}.

Implicit Types (e : Event Time PgxConn) (t : list (Event Time PgxConn)) (cutoff : Time).

Lemma statsLoop_report (pending : list (result (StatRow Time))) final (w : W) :
  let r := statsLoop (PgxConn := PgxConn) pending final 0 w in
  world_of r = w /\ reports (trace_of r) /\ fst (value_of r) = 0.
Proof.
  induction pending as [|[row|err] rest IH]; cbn [statsLoop].
  - destruct final; cbn; repeat split; constructor.
  - unfold bind, emit.
    destruct (statsLoop rest final 0 w) as [[w' t'] [n e]] eqn:Hs.
    cbn in *. destruct IH as (-> & Ht & Hn). repeat split; auto.
    constructor; auto.
  - cbn; repeat split; constructor.
Qed.

(** *** The monad, one component at a time *)

Lemma bind_trace {A B} (m : M W Time PgxConn A) (f : A -> M W Time PgxConn B) (w : W) :
  trace_of (bind m f w) = trace_of (m w) ++ trace_of (f (value_of (m w)) (world_of (m w))).
Proof.
  unfold bind, trace_of, value_of, world_of.
  destruct (m w) as [[w1 t1] a]; cbn. destruct (f a w1) as [[w2 t2] b]; reflexivity.
Qed.

Lemma bind_world {A B} (m : M W Time PgxConn A) (f : A -> M W Time PgxConn B) (w : W) :
  world_of (bind m f w) = world_of (f (value_of (m w)) (world_of (m w))).
Proof.
  unfold bind, trace_of, value_of, world_of.
  destruct (m w) as [[w1 t1] a]; cbn. destruct (f a w1) as [[w2 t2] b]; reflexivity.
Qed.

Lemma bind_value {A B} (m : M W Time PgxConn A) (f : A -> M W Time PgxConn B) (w : W) :
  value_of (bind m f w) = value_of (f (value_of (m w)) (world_of (m w))).
Proof.
  unfold bind, trace_of, value_of, world_of.
  destruct (m w) as [[w1 t1] a]; cbn. destruct (f a w1) as [[w2 t2] b]; reflexivity.
Qed.

Lemma steps_app w t1 w1 t2 w2 :
  steps w t1 w1 -> steps w1 t2 w2 -> steps w (t1 ++ t2) w2.
Proof.
  induction 1; cbn; auto. intros. econstructor; eauto.
Qed.

Lemma steps_app_inv t1 : forall w t2 w2,
  steps w (t1 ++ t2) w2 -> exists w1, steps w t1 w1 /\ steps w1 t2 w2.
Proof.
  induction t1 as [|e t1 IH]; cbn; intros w t2 w2 Hs.
  - exists w; split; [constructor | assumption].
  - inversion Hs; subst.
    destruct (IH _ _ _ H4) as (w1' & Ha & Hb).
    exists w1'; split; [econstructor; eauto | assumption].
Qed.

Lemma steps_one w e w' : step w e w' -> steps w [e] w'.
Proof. intros; econstructor; eauto; constructor. Qed.

Lemma sound_ret {A} (a : A) : sound (ret a).
Proof. intros w; constructor. Qed.

Lemma sound_bind {A B} (m : M W Time PgxConn A) (f : A -> M W Time PgxConn B) :
  sound m -> (forall a, sound (f a)) -> sound (bind m f).
Proof.
  intros Hm Hf w. rewrite bind_trace, bind_world.
  eapply steps_app; [apply Hm | apply Hf].
Qed.

Lemma sound_logf lvl format args : sound (logf lvl format args).
Proof. intros w; apply steps_one; constructor. Qed.

Lemma sound_Connect url : sound (Connect url).
Proof.
  intros w; unfold Connect. destruct (pgx_Connect url w) eqn:Hc.
  apply steps_one; constructor; assumption.
Qed.

Lemma sound_Exec c sql args : sound (Exec c sql args).
Proof.
  intros w; unfold Exec. destruct (pgx_Exec c sql args w) as [w' [n err]] eqn:Hc.
  apply steps_one; constructor; assumption.
Qed.

Lemma sound_QueryRowScan c sql args : sound (QueryRowScan c sql args).
Proof.
  intros w; unfold QueryRowScan. destruct (pgx_QueryRow c sql args w) eqn:Hc.
  apply steps_one; constructor; assumption.
Qed.

Lemma sound_Query c sql : sound (Query c sql).
Proof.
  intros w; unfold Query. destruct (pgx_Query c sql w) eqn:Hc.
  apply steps_one; constructor; assumption.
Qed.

Lemma sound_Now : sound (Now (PgxConn := PgxConn)).
Proof.
  intros w; unfold Now. destruct (time_Now w) as [w' tm] eqn:Hc.
  apply steps_one; constructor; assumption.
Qed.

Lemma sound_statsLoop pending final deleted :
  sound (statsLoop (PgxConn := PgxConn) pending final deleted).
Proof.
  induction pending as [|[row|err] rest IH]; cbn [statsLoop].
  - destruct final; apply sound_ret.
  - apply sound_bind; [|intros; apply IH].
    intros w; apply steps_one; constructor.
  - apply sound_ret.
Qed.

Ltac sound_tac :=
  repeat first
    [ apply sound_ret | apply sound_logf | apply sound_Connect | apply sound_Exec
    | apply sound_QueryRowScan | apply sound_Query | apply sound_Now
    | apply sound_statsLoop
    | apply sound_bind; [|intros]
    | match goal with
      | |- sound (match ?x with _ => _ end) => destruct x
      | |- sound (if ?x then _ else _) => destruct x
      | |- sound (let '(_, _) := ?x in _) => destruct x
      end ].

Lemma sound_LogVacuumStats d : sound (LogVacuumStats d).
Proof.
  unfold LogVacuumStats. sound_tac.
  intros w; apply steps_one; constructor.
Qed.

Lemma sound_reportStats d : sound (reportStats d).
Proof. unfold reportStats. apply sound_bind; [apply sound_LogVacuumStats|intros]. sound_tac. Qed.

Lemma sound_loopBody d dryRun cutoff : sound (loopBody d dryRun cutoff).
Proof.
  unfold loopBody, ExpiredClonesCount, ExpiredComposesCount, DeleteClones,
    DeleteComposes, VacuumAnalyze.
  sound_tac.
Qed.

Lemma sound_cleanupLoop fuel d dryRun cutoff : sound (cleanupLoop fuel d dryRun cutoff).
Proof.
  induction fuel as [|fuel IH]; cbn [cleanupLoop]; [apply sound_ret|].
  apply sound_bind; [apply sound_loopBody|]. intros [| |err]; auto; apply sound_ret.
Qed.

Lemma sound_DBCleanup fuel url dryRun months : sound (DBCleanup fuel url dryRun months).
Proof.
  unfold DBCleanup, newDB.
  apply sound_bind; [sound_tac|]. intros [db|err]; [|apply sound_ret].
  apply sound_bind; [apply sound_reportStats|intros _].
  apply sound_bind; [apply sound_Now|intros now].
  apply sound_bind; [apply sound_cleanupLoop|intros [|err|]]; try apply sound_ret.
  apply sound_bind; [apply sound_reportStats|intros; apply sound_ret].
Qed.

(** *** Shape of the traces *)

Lemma LogVacuumStats_report d (w : W) :
  reports (trace_of (LogVacuumStats d w)) /\ fst (value_of (LogVacuumStats d w)) = 0.
Proof.
  unfold LogVacuumStats, bind, Query, emit, ret.
  destruct (pgx_Query (Conn d) sqlVacuumStats w) as [w1 [rows|err]].
  - destruct (statsLoop_report (fetched rows) (rowsErr rows) w1) as (Hw & Ht & Hv).
    cbn zeta in Hw, Ht, Hv.
    destruct (statsLoop (fetched rows) (rowsErr rows) 0 w1) as [[w2 t] res].
    cbn [trace_of value_of world_of fst snd app] in *.
    split; [|exact Hv].
    constructor; [reflexivity|]. apply Forall_app; split; [exact Ht|].
    repeat constructor.
  - cbn. split; [repeat constructor | reflexivity].
Qed.

Lemma reportStats_report d (w : W) : reports (trace_of (reportStats d w)).
Proof.
  unfold reportStats. rewrite bind_trace.
  apply Forall_app; split; [apply LogVacuumStats_report|].
  destruct (snd (value_of (LogVacuumStats d w))); repeat constructor.
Qed.

Lemma loopBody_live d cutoff (w : W) :
  LiveBody (Conn d) cutoff
    (trace_of (loopBody d false cutoff w)) (value_of (loopBody d false cutoff w)).
Proof.
  unfold loopBody, DeleteClones, DeleteComposes, VacuumAnalyze, Exec, bind, logf, emit, ret.
  destruct (pgx_Exec (Conn d) sqlDeleteClones [cutoff] w) as [w1 [r1 [e1|]]];
    cbn [trace_of value_of fst snd app].
  { apply LB_clones_failed. }
  destruct (pgx_Exec (Conn d) sqlDeleteComposes [cutoff] w1) as [w2 [r2 [e2|]]];
    cbn [trace_of value_of fst snd app].
  { apply LB_composes_failed. }
  destruct (pgx_Exec (Conn d) sqlVacuumAnalyze [] w2) as [w3 [r3 [e3|]]];
    cbn [trace_of value_of fst snd app].
  { apply LB_reclaim_failed. }
  destruct (r2 =? 0) eqn:Hz; cbn [trace_of value_of fst snd app].
  - apply Z.eqb_eq in Hz; subst. apply LB_break.
  - apply Z.eqb_neq in Hz. apply (LB_continue _ _ r1 r2 r3 Hz).
Qed.

Lemma cleanupLoop_live fuel d cutoff : forall w : W,
  LiveLoop (Conn d) cutoff
    (trace_of (cleanupLoop fuel d false cutoff w))
    (value_of (cleanupLoop fuel d false cutoff w)).
Proof.
  induction fuel as [|fuel IH]; intros w; cbn [cleanupLoop].
  - apply LL_pending.
  - rewrite bind_trace, bind_value.
    pose proof (loopBody_live d cutoff w) as Hb.
    destruct Hb as [r1 r3|r1 r2 r3 Hnz|r1 err|r1 r2 err|r1 r2 r3 err];
      cbn [ret trace_of value_of fst snd].
    + rewrite app_nil_r. apply LL_stop.
    + rewrite <- app_assoc. cbn [app]. apply LL_again; [assumption|apply IH].
    + apply LL_clones_failed.
    + apply LL_composes_failed.
    + apply LL_reclaim_failed.
Qed.

Lemma loopBody_dry d cutoff (w : W) :
  exists rc r,
    trace_of (loopBody d true cutoff w) = dryRunTrace (Conn d) cutoff rc r
    /\ value_of (loopBody d true cutoff w) = Break.
Proof.
  unfold loopBody, ExpiredClonesCount, ExpiredComposesCount, QueryRowScan, bind, logf,
    emit, ret.
  destruct (pgx_QueryRow (Conn d) sqlExpiredClonesCount [cutoff] w) as [w1 rc].
  exists rc.
  destruct rc as [n1|e1]; cbn [trace_of value_of fst snd app];
    destruct (pgx_QueryRow (Conn d) sqlExpiredComposesCount [cutoff] w1) as [w2 r];
    exists r; destruct r as [n2|e2]; split; reflexivity.
Qed.

Lemma cleanupLoop_dry fuel d cutoff (w : W) :
  exists rc r,
    trace_of (cleanupLoop (S fuel) d true cutoff w) = dryRunTrace (Conn d) cutoff rc r
    /\ value_of (cleanupLoop (S fuel) d true cutoff w) = Broke.
Proof.
  cbn [cleanupLoop]. rewrite bind_trace, bind_value.
  destruct (loopBody_dry d cutoff w) as (rc & r & Ht & Hv).
  exists rc, r. rewrite Ht, Hv. cbn. rewrite app_nil_r. split; reflexivity.
Qed.

Lemma DBCleanup_shape fuel url dryRun months (w : W) :
  runShape fuel url dryRun months
    (trace_of (DBCleanup fuel url dryRun months w))
    (value_of (DBCleanup fuel url dryRun months w)).
Proof.
  unfold DBCleanup, newDB, bind, Connect, ret.
  destruct (pgx_Connect url w) as [w1 [c|err]]; cbn [trace_of value_of world_of fst snd app].
  2:{ left. exists err. split; reflexivity. }
  right.
  set (db := {| Conn := c |}).
  pose proof (reportStats_report db w1) as Hr1.
  destruct (reportStats db w1) as [[w2 t1] []].
  unfold Now. destruct (time_Now w2) as [w3 now].
  exists c, t1, now, w3. fold db.
  destruct (cleanupLoop fuel db dryRun (retentionDate now months) w3) as [[w4 t2] ex].
  destruct ex as [|err|].
  - pose proof (reportStats_report db w4) as Hr2.
    destruct (reportStats db w4) as [[w5 t3] []].
    exists t3. cbn [trace_of value_of world_of fst snd app] in *.
    rewrite app_nil_r. repeat split; assumption.
  - exists []. cbn [trace_of value_of world_of fst snd app] in *.
    rewrite !app_nil_r. repeat split; assumption.
  - exists []. cbn [trace_of value_of world_of fst snd app] in *.
    rewrite !app_nil_r. repeat split; assumption.
Qed.

(** *** What the traces of the loop contain *)

Lemma report_no_close (e : Event Time PgxConn) : is_report e = true -> is_close e = false.
Proof. destruct e; cbn; congruence. Qed.

Lemma report_no_exec (e : Event Time PgxConn) : is_report e = true -> is_exec e = false.
Proof. destruct e; cbn; congruence. Qed.

Lemma report_uses_cutoff cutoff (e : Event Time PgxConn) :
  is_report e = true -> uses_cutoff cutoff e.
Proof. destruct e; cbn; try congruence; auto. Qed.

Lemma live_uses_cutoff (c : PgxConn) cutoff e : live_event c cutoff e -> uses_cutoff cutoff e.
Proof. destruct e as [| |c' [] args n err| | | | | |]; cbn; tauto. Qed.


Lemma dry_uses_cutoff (c : PgxConn) cutoff e : dry_event c cutoff e -> uses_cutoff cutoff e.
Proof. destruct e as [| | |c' [] args r| | | | |]; cbn; tauto. Qed.


Lemma dry_no_exec (c : PgxConn) (cutoff : Time) e : dry_event c cutoff e -> is_exec e = false.
Proof. destruct e; cbn; tauto. Qed.

Lemma LiveLoop_events (c : PgxConn) (cutoff : Time) t ex :
  LiveLoop c cutoff t ex -> Forall (live_event c cutoff) t.
Proof.
  induction 1; unfold iteration; cbn [app]; repeat constructor; cbn; auto.
Qed.

Lemma dryRunTrace_events (c : PgxConn) (cutoff : Time) rc r :
  Forall (dry_event c cutoff) (dryRunTrace c cutoff rc r).
Proof.
  unfold dryRunTrace. destruct rc, r; cbn; repeat constructor; cbn; auto.
Qed.

Lemma LiveLoop_broke (c : PgxConn) (cutoff : Time) t ex :
  LiveLoop c cutoff t ex -> ex = Broke ->
  exists pre r1 r3, t = pre ++ iteration c cutoff r1 0 r3.
Proof.
  induction 1 as [r1 r3|r1 r2 r3 rest ex Hnz Hl IH| | | |]; intros Hex; try discriminate.
  - exists [], r1, r3. reflexivity.
  - destruct (IH Hex) as (pre & r1' & r3' & ->).
    exists (iteration c cutoff r1 r2 r3 ++ EvLogf Info "Deleted results for %d" [VInt r2] :: pre),
      r1', r3'.
    rewrite <- app_assoc. reflexivity.
Qed.





(** *** What the traces of a run contain *)

Lemma cleanupLoop_events fuel d dryRun cutoff (w : W) :
  Forall (fun e => live_event (Conn d) cutoff e \/ dry_event (Conn d) cutoff e)
         (trace_of (cleanupLoop fuel d dryRun cutoff w)).
Proof.
  destruct dryRun.
  - destruct fuel as [|fuel]; [constructor|].
    destruct (cleanupLoop_dry fuel d cutoff w) as (rc & r & -> & _).
    eapply Forall_impl; [|apply dryRunTrace_events]. intros; right; eassumption.
  - eapply Forall_impl; [|eapply LiveLoop_events, cleanupLoop_live].
    intros; left; eassumption.
Qed.


Lemma DBCleanup_dry_no_exec fuel url months (w : W) :
  Forall (fun e => is_exec e = false) (trace_of (DBCleanup fuel url true months w)).
Proof.
  destruct (DBCleanup_shape fuel url true months w)
    as [(err & -> & _)|(c & t1 & tm & w' & t3 & Ht & Hr1 & Hex)]; [repeat constructor|].
  cbn zeta in Ht, Hex. rewrite Ht.
  constructor; [reflexivity|]. apply Forall_app; split.
  { eapply Forall_impl; [|exact Hr1]. apply report_no_exec. }
  constructor; [reflexivity|]. apply Forall_app; split.
  { destruct fuel as [|fuel]; [constructor|].
    destruct (cleanupLoop_dry fuel {| Conn := c |} (retentionDate tm months) w')
      as (rc & r & -> & _).
    eapply Forall_impl; [|apply dryRunTrace_events]. intros e; apply dry_no_exec. }
  destruct (value_of (cleanupLoop fuel {| Conn := c |} true (retentionDate tm months) w'));
    destruct Hex as [Ht3 _]; subst; try constructor.
  eapply Forall_impl; [|exact Ht3]. apply report_no_exec.
Qed.

Lemma DBCleanup_cutoff fuel url dryRun months (w : W) :
  let t := trace_of (DBCleanup fuel url dryRun months w) in
  (exists err, t = [EvConnect url (Err err)])
  \/ (exists pre tm post,
        t = pre ++ EvNow tm :: post
        /\ Forall (fun e => is_now e = false /\ is_cutoff_call e = false) pre
        /\ Forall (uses_cutoff (retentionDate tm months)) post).
Proof.
  cbn zeta.
  destruct (DBCleanup_shape fuel url dryRun months w)
    as [(err & Ht & _)|(c1 & t1 & tm & w' & t3 & Ht & Hr1 & Hex)].
  { left. exists err. exact Ht. }
  right. cbn zeta in Ht, Hex.
  exists (EvConnect url (Ok c1) :: t1), tm,
    (trace_of (cleanupLoop fuel {| Conn := c1 |} dryRun (retentionDate tm months) w') ++ t3).
  split; [exact Ht|]. split.
  - constructor; [split; reflexivity|].
    eapply Forall_impl; [|exact Hr1]. intros e He. destruct e; cbn in *; auto; discriminate.
  - apply Forall_app; split.
    + eapply Forall_impl; [|apply cleanupLoop_events].
      intros e [H|H]; [eapply live_uses_cutoff|eapply dry_uses_cutoff]; eassumption.
    + destruct (value_of (cleanupLoop fuel {| Conn := c1 |} dryRun (retentionDate tm months) w'));
        destruct Hex as [Ht3 _]; subst; try constructor.
      eapply Forall_impl; [|exact Ht3]. apply report_uses_cutoff.
Qed.


Lemma report_before_cutoff e :
  is_report e = true -> is_now e = false /\ is_cutoff_call e = false.
Proof. destruct e; cbn; try discriminate; auto. Qed.

Lemma iterations_app t1 t2 : iterations (t1 ++ t2) = (iterations t1 + iterations t2)%nat.
Proof. unfold iterations. now rewrite filter_app, length_app. Qed.

Lemma reports_iterations t : reports t -> iterations t = O.
Proof.
  unfold iterations. induction 1 as [|e t He _ IH]; [reflexivity|].
  cbn [filter]. destruct e; try discriminate; exact IH.
Qed.

Lemma LiveBody_iterations (c : PgxConn) cutoff t ctl :
  LiveBody c cutoff t ctl -> iterations t = 1%nat.
Proof.
  destruct 1; reflexivity.
Qed.

Lemma steps_run_inv (w wf : W) e1 t1 e2 tl t3 :
  steps w (e1 :: t1 ++ e2 :: tl ++ t3) wf ->
  exists wa wb wc wd,
    step w e1 wa /\ steps wa t1 wb /\ step wb e2 wc /\ steps wc tl wd /\ steps wd t3 wf.
Proof.
  intros Hs. inversion Hs as [|? ? wa ? ? H1 Hs1]; subst.
  apply steps_app_inv in Hs1. destruct Hs1 as (wb & Ht1 & Hs2).
  inversion Hs2 as [|? ? wc ? ? H2 Hs3]; subst.
  apply steps_app_inv in Hs3. destruct Hs3 as (wd & Htl & Ht3).
  exists wa, wb, wc, wd. auto.
Qed.

End Generic.

(** ** Properties of runs against the relational environment *)

Section Relational.
Import Rel.

Implicit Types (w : World) (e : Event Z nat) (t : list (Event Z nat)).

Lemma expired_lt cutoff c : expired cutoff c = true <-> created_at c < cutoff.
Proof. unfold expired. apply Z.ltb_lt. Qed.

Lemma references_true ids cl : references ids cl = true <-> In (compose_id cl) ids.
Proof.
  unfold references. rewrite existsb_exists. split.
  - intros (x & Hin & Heq). apply String.eqb_eq in Heq. now subst.
  - intros Hin. exists (compose_id cl). split; [assumption|apply String.eqb_refl].
Qed.

Lemma filter_all {A} (p : A -> bool) (l : list A) :
  (forall x, In x l -> p x = true) -> filter p l = l.
Proof.
  induction l as [|x l IH]; cbn; intros H; [reflexivity|].
  rewrite (H x (or_introl eq_refl)). f_equal. apply IH. intros; apply H; now right.
Qed.

Lemma filter_none {A} (p : A -> bool) (l : list A) :
  (forall x, In x l -> p x = false) -> filter p l = [].
Proof.
  induction l as [|x l IH]; cbn; intros H; [reflexivity|].
  rewrite (H x (or_introl eq_refl)). apply IH. intros; apply H; now right.
Qed.

Lemma noExpired_filter cutoff cs : noExpired cutoff cs -> filter (expired cutoff) cs = [].
Proof.
  intros H. apply filter_none. intros c Hin.
  destruct (expired cutoff c) eqn:He; [|reflexivity].
  apply expired_lt in He. destruct (H c Hin He).
Qed.

Lemma noExpired_after_delete cutoff cs :
  noExpired cutoff (filter (fun c => negb (expired cutoff c)) cs).
Proof.
  intros c Hin Hlt. apply filter_In in Hin. destruct Hin as [_ Hn].
  apply expired_lt in Hlt. rewrite Hlt in Hn. discriminate.
Qed.

Lemma noReference_after_delete cutoff cs cls :
  noReference cutoff cs (filter (fun cl => negb (references (expiredIds cutoff cs) cl)) cls).
Proof.
  intros cl c Hin Hc Hlt Href. apply filter_In in Hin. destruct Hin as [_ Hn].
  assert (references (expiredIds cutoff cs) cl = true) as Hr.
  { apply references_true. rewrite Href. unfold expiredIds. apply in_map.
    apply filter_In. split; [assumption|now apply expired_lt]. }
  rewrite Hr in Hn. discriminate.
Qed.

(** What [execute] does to the tables. *)
Lemma execute_incl sql args cs cls cs' cls' n :
  execute sql args cs cls = Some (cs', cls', n) -> incl cs' cs /\ incl cls' cls.
Proof.
  unfold execute. destruct sql, args as [|a [|]]; intros H; inversion H; subst;
    split; try apply incl_refl; apply incl_filter.
Qed.

Lemma execute_noExpired sql cutoff cs cls cs' cls' n :
  noExpired cutoff cs ->
  execute sql [cutoff] cs cls = Some (cs', cls', n) ->
  cs' = cs /\ cls' = cls /\ n = 0.
Proof.
  intros Hno. pose proof (noExpired_filter _ _ Hno) as Hf.
  unfold execute, count, expiredIds.
  destruct sql; intros H; inversion H; subst; clear H; rewrite Hf;
    cbn [map List.length Z.of_nat].
  - repeat split.
    + apply filter_all. intros; reflexivity.
    + rewrite filter_none; [reflexivity | intros; reflexivity].
  - repeat split.
    apply filter_all. intros c Hin. destruct (expired cutoff c) eqn:He; [|reflexivity].
    apply expired_lt in He. destruct (Hno c Hin He).
Qed.

(** *** One call at a time *)

Lemma popFault_frame w :
  let w1 := fst (popFault w) in
  composes w1 = composes w /\ clones w1 = clones w /\ sessions w1 = sessions w.
Proof. unfold popFault. destruct (faults w); cbn; auto. Qed.

Lemma popStats_frame w :
  let w1 := fst (popStats w) in
  composes w1 = composes w /\ clones w1 = clones w /\ sessions w1 = sessions w.
Proof. unfold popStats. destruct (stats w); cbn; auto. Qed.

Lemma exec_cases c sql args w w' n err :
  exec c sql args w = (w', (n, err)) ->
  sessions w' = sessions w
  /\ match err with
     | None => execute sql args (composes w) (clones w) = Some (composes w', clones w', n)
     | Some _ =>
         (composes w' = composes w /\ clones w' = clones w)
         \/ exists n', execute sql args (composes w) (clones w) = Some (composes w', clones w', n')
     end.
Proof.
  unfold exec. destruct (isOpen c w).
  2:{ intros H; inversion H; subst. auto. }
  destruct (popFault_frame (advance w)) as (Hc & Hl & Hs). cbn zeta in Hc, Hl, Hs.
  destruct (popFault (advance w)) as [w1 f]. cbn [fst advance composes clones sessions] in *.
  rewrite Hc, Hl.
  destruct f as [f|].
  - destruct (applied f);
      [destruct (execute sql args (composes w) (clones w)) as [[[cs cls] n']|] eqn:Hx|];
      intros H; inversion H; subst; cbn; auto.
    split; [assumption|]. right. exists n'. reflexivity.
  - destruct (execute sql args (composes w) (clones w)) as [[[cs cls] n']|] eqn:Hx;
      intros H; inversion H; subst; cbn; auto.
Qed.

Lemma step_frame w e w' :
  step w e w' -> is_exec e = false ->
  composes w' = composes w /\ clones w' = clones w.
Proof.
  intros Hs Hne.
  destruct Hs as [url w' r H|c w' err H|c sql args w' n err H|c sql args w' r H
                 |c sql w' r H|w' tm H| | |];
    cbn in Hne; try discriminate; auto; cbn in H.
  - unfold connect in H. destruct (popFault_frame (advance w)) as (Hc & Hl & _).
    destruct (popFault (advance w)) as [w1 [f|]]; inversion H; subst; cbn in *; auto.
  - unfold close in H. destruct (popFault_frame (advance w)) as (Hc & Hl & _).
    destruct (popFault (advance w)) as [w1 f]; inversion H; subst; cbn in *; auto.
  - unfold queryRow in H. destruct (isOpen c w); [|inversion H; subst; auto].
    destruct (popFault_frame (advance w)) as (Hc & Hl & _).
    destruct (popFault (advance w)) as [w1 [f|]]; [inversion H; subst; cbn in *; auto|].
    destruct (evaluate sql args w1); inversion H; subst; cbn in *; auto.
  - unfold query in H. destruct (isOpen c w); [|inversion H; subst; auto].
    destruct (popStats_frame (advance w)) as (Hc & Hl & _).
    destruct sql; try (inversion H; subst; cbn; auto; fail).
    rewrite H in Hc, Hl. cbn in Hc, Hl. auto.
  - unfold now in H. inversion H; subst; cbn; auto.
Qed.

Lemma step_exec_inv w c sql args n err w' :
  step w (EvExec c sql args n err) w' -> exec c sql args w = (w', (n, err)).
Proof. intros Hs. inversion Hs; subst. assumption. Qed.

Lemma step_incl w e w' :
  step w e w' -> incl (composes w') (composes w) /\ incl (clones w') (clones w).
Proof.
  intros Hs. destruct (is_exec e) eqn:He.
  - destruct e; try discriminate.
    apply step_exec_inv, exec_cases in Hs. destruct Hs as [_ Hs].
    destruct err as [err|].
    + destruct Hs as [[-> ->]|[n' Hx]]; [split; apply incl_refl|].
      eapply execute_incl; eassumption.
    + eapply execute_incl; eassumption.
  - destruct (step_frame _ _ _ Hs He) as [-> ->]. split; apply incl_refl.
Qed.

Lemma steps_incl w t w' :
  steps w t w' -> incl (composes w') (composes w) /\ incl (clones w') (clones w).
Proof.
  induction 1 as [w|w e w1 t w2 Hs _ IH]; [split; apply incl_refl|].
  apply step_incl in Hs. destruct Hs, IH. split; eapply incl_tran; eassumption.
Qed.

Lemma steps_frame w t w' :
  steps w t w' -> Forall (fun e => is_exec e = false) t ->
  composes w' = composes w /\ clones w' = clones w.
Proof.
  induction 1 as [w|w e w1 t w2 Hs _ IH]; intros Hall; [auto|].
  inversion Hall; subst.
  destruct (step_frame _ _ _ Hs H1) as [<- <-]. auto.
Qed.

(** A connection stays open until it is closed. *)
Lemma step_session w e w' c :
  step w e w' -> is_close e = false -> In c (sessions w) -> In c (sessions w').
Proof.
  intros Hs Hne Hin.
  destruct Hs as [url w' r H|c' w' err H|c' sql args w' n err H|c' sql args w' r H
                 |c' sql w' r H|w' tm H| | |];
    cbn in Hne; try discriminate; auto; cbn in H.
  - unfold connect in H. destruct (popFault_frame (advance w)) as (_ & _ & Hse).
    destruct (popFault (advance w)) as [w1 [f|]]; inversion H; subst; cbn in *;
      rewrite Hse; auto.
  - apply exec_cases in H. destruct H as [-> _]. assumption.
  - unfold queryRow in H. destruct (isOpen c' w); [|inversion H; subst; auto].
    destruct (popFault_frame (advance w)) as (_ & _ & Hse).
    destruct (popFault (advance w)) as [w1 [f|]];
      [inversion H; subst; cbn in *; rewrite Hse; auto|].
    destruct (evaluate sql args w1); inversion H; subst; cbn in *; rewrite Hse; auto.
  - unfold query in H. destruct (isOpen c' w); [|inversion H; subst; auto].
    destruct (popStats_frame (advance w)) as (_ & _ & Hse).
    destruct sql; try (inversion H; subst; cbn; auto; fail).
    rewrite H in Hse. cbn in Hse. rewrite Hse. assumption.
  - unfold now in H. inversion H; subst; cbn; auto.
Qed.



End Relational.

(** ** The cleanup run against any environment *)

Section CleanupRun.
Context {W Time PgxConn : Type} `{E : Env W Time PgxConn}.

Implicit Types (e : Event Time PgxConn) (t : list (Event Time PgxConn)) (cutoff : Time) (w : W).






(** C10. The integer LogVacuumStats returns is 0 whether the query
    fails, a row fails to scan, the cursor reports an error, or all
    rows are logged. *)
Theorem LogVacuumStats_returns_zero d w :
  fst (value_of (LogVacuumStats d w)) = 0.
Proof. apply LogVacuumStats_report. Qed.

End CleanupRun.

(** ** The cleanup run against the relational environment *)

Section RelationalRun.
Import Rel.

Implicit Types (w : World) (e : Event Z nat) (t : list (Event Z nat)) (d : maintenanceDB nat).

Lemma cutoffOf_found months pre tm post :
  Forall (fun e => is_now e = false /\ is_cutoff_call e = false) pre ->
  cutoffOf months (pre ++ EvNow tm :: post) = Some (retentionDate tm months).
Proof.
  unfold cutoffOf. induction 1 as [|e pre [He _] _ IH]; cbn [app find is_now];
    [reflexivity|].
  rewrite He. exact IH.
Qed.

(** One complete pass of the live loop deletes the clones of the expired
    composes, then the expired composes, and reports their numbers. *)
Lemma iteration_effect c cutoff r1 r2 r3 w w' :
  steps w (iteration c cutoff r1 r2 r3) w' ->
  composes w' = filter (fun x => negb (expired cutoff x)) (composes w)
  /\ clones w' = filter (fun cl => negb (references (expiredIds cutoff (composes w)) cl))
                        (clones w)
  /\ r1 = count (references (expiredIds cutoff (composes w))) (clones w)
  /\ r2 = count (expired cutoff) (composes w).
Proof.
  unfold iteration. intros Hs.
  inversion Hs as [|? ? w1 ? ? H1 Hs1]; subst; clear Hs.
  inversion Hs1 as [|? ? w2 ? ? H2 Hs2]; subst; clear Hs1.
  inversion Hs2 as [|? ? w3 ? ? H3 Hs3]; subst; clear Hs2.
  inversion Hs3; subst; clear Hs3.
  apply step_exec_inv, exec_cases in H1, H2, H3.
  destruct H1 as [_ H1], H2 as [_ H2], H3 as [_ H3].
  cbn [execute] in H1, H2, H3.
  injection H1 as Ha Hb Hc. injection H2 as Hd He Hf. injection H3 as Hg Hh _.
  rewrite <- Hg, <- Hh, <- Hd, <- He, <- Hb, <- Hc, <- Hf, <- Ha. auto.
Qed.

Lemma LiveLoop_cleans c cutoff t ex :
  LiveLoop c cutoff t ex -> ex = Broke ->
  forall w w', steps w t w' ->
    noExpired cutoff (composes w') /\ noReference cutoff (composes w) (clones w').
Proof.
  induction 1 as [r1 r3|r1 r2 r3 rest ex Hnz Hl IH| | | |]; intros Hex w w' Hs;
    try discriminate.
  - destruct (iteration_effect _ _ _ _ _ _ _ Hs) as (-> & -> & _).
    split; [apply noExpired_after_delete|apply noReference_after_delete].
  - specialize (IH Hex).
    apply steps_app_inv in Hs. destruct Hs as (w1 & Hit & Hrest).
    inversion Hrest as [|? ? w2 ? ? Hlog Hrest']; subst; clear Hrest.
    inversion Hlog; subst.
    destruct (IH _ _ Hrest') as [Hno _]. split; [assumption|].
    destruct (iteration_effect _ _ _ _ _ _ _ Hit) as (_ & Hcl & _).
    destruct (steps_incl _ _ _ Hrest') as [_ Hincl].
    intros cl x Hin. apply Hincl in Hin. rewrite Hcl in Hin.
    revert cl x Hin. apply noReference_after_delete.
Qed.

Lemma execute_other sql args cs cls cs' cls' n :
  sql <> sqlDeleteClones -> sql <> sqlDeleteComposes ->
  execute sql args cs cls = Some (cs', cls', n) -> cs' = cs /\ cls' = cls.
Proof.
  unfold execute. destruct sql, args as [|a [|]]; intros H1 H2 H; inversion H; subst;
    auto; congruence.
Qed.

(** With nothing expired before [cutoff], no call working with that
    cutoff changes the tables, and the deletions report zero rows. *)
Lemma steps_nothing_left cutoff w t w' :
  steps w t w' ->
  noExpired cutoff (composes w) ->
  Forall (deletes_before cutoff) t ->
  composes w' = composes w /\ clones w' = clones w /\ Forall deletes_nothing t.
Proof.
  induction 1 as [w|w e w1 t w2 Hs _ IH]; intros Hno Hall; [auto|].
  inversion Hall as [|? ? He Hall']; subst.
  assert (composes w1 = composes w /\ clones w1 = clones w /\ deletes_nothing e)
    as (Hc & Hl & Hd).
  { destruct (is_exec e) eqn:Hx.
    - destruct e as [| |c sql args n err| | | | | |]; try discriminate.
      apply step_exec_inv, exec_cases in Hs. destruct Hs as [_ Hs].
      assert (forall n', execute sql args (composes w) (clones w)
                         = Some (composes w1, clones w1, n') ->
                         composes w1 = composes w /\ clones w1 = clones w
                         /\ deletes_nothing (EvExec c sql args n' None : Event Z nat))
        as Hexec.
      { intros n' Hx'.
        destruct sql; cbn [deletes_before] in He; subst;
          first
            [ destruct (execute_noExpired _ _ _ _ _ _ _ Hno Hx') as (-> & -> & ->);
              cbn [deletes_nothing]; auto
            | apply execute_other in Hx';
              [destruct Hx' as (-> & ->); cbn [deletes_nothing]; auto
              |discriminate|discriminate] ]. }
      destruct err as [err|].
      + assert (deletes_nothing (EvExec c sql args n (Some err) : Event Z nat)) as Hd
            by (destruct sql; exact I).
        destruct Hs as [[-> ->]|[n' Hx']]; [auto|].
        destruct (Hexec _ Hx') as (-> & -> & _). auto.
      + apply Hexec. assumption.
    - destruct (step_frame _ _ _ Hs Hx) as [-> ->]. repeat split.
      destruct e; try exact I; discriminate. }
  rewrite <- Hc in Hno. destruct (IH Hno Hall') as (-> & -> & Hrest).
  repeat split; try assumption. constructor; assumption.
Qed.

(** A pass that falls through to the next iteration leaves no expired
    compose behind, and with no expired compose no pass falls through. *)
Lemma loopBody_continue d cutoff w :
  value_of (loopBody d false cutoff w) = Continue ->
  noExpired cutoff (composes (world_of (loopBody d false cutoff w))).
Proof.
  intros Hv. pose proof (loopBody_live d cutoff w) as Hb.
  pose proof (sound_loopBody d false cutoff w) as Hs.
  destruct (loopBody d false cutoff w) as [[w' t] ctl].
  cbn [trace_of value_of world_of fst snd] in *. subst ctl.
  inversion Hb as [|r1 r2 r3 Hnz Ht| | |]; subst.
  apply steps_app_inv in Hs. destruct Hs as (w1 & Hit & Hlog).
  inversion Hlog as [|? ? w2 ? ? Hl Hnil]; subst. inversion Hl; subst. inversion Hnil; subst.
  destruct (iteration_effect _ _ _ _ _ _ _ Hit) as (-> & _).
  apply noExpired_after_delete.
Qed.

Lemma loopBody_stops d cutoff w :
  noExpired cutoff (composes w) -> value_of (loopBody d false cutoff w) <> Continue.
Proof.
  intros Hno Hv. pose proof (loopBody_live d cutoff w) as Hb.
  pose proof (sound_loopBody d false cutoff w) as Hs.
  destruct (loopBody d false cutoff w) as [[w' t] ctl].
  cbn [trace_of value_of world_of fst snd] in *. subst ctl.
  inversion Hb as [|r1 r2 r3 Hnz Ht| | |]; subst.
  apply steps_app_inv in Hs. destruct Hs as (w1 & Hit & _).
  destruct (iteration_effect _ _ _ _ _ _ _ Hit) as (_ & _ & _ & Hr2).
  apply Hnz. rewrite Hr2. unfold count. now rewrite noExpired_filter.
Qed.

(** In the relational environment two passes are always enough. *)
Lemma cleanupLoop_two_passes fuel d cutoff w :
  (2 <= fuel)%nat ->
  value_of (cleanupLoop fuel d false cutoff w) <> OutOfFuel
  /\ (iterations (trace_of (cleanupLoop fuel d false cutoff w)) <= 2)%nat.
Proof.
  intros Hfuel. destruct fuel as [|[|fuel]]; try lia. clear Hfuel.
  cbn [cleanupLoop]. rewrite bind_value, bind_trace, iterations_app.
  rewrite (LiveBody_iterations _ _ _ _ (loopBody_live d cutoff w)).
  pose proof (loopBody_continue d cutoff w) as Hc.
  destruct (value_of (loopBody d false cutoff w)); cbn [ret value_of trace_of fst snd];
    try (split; [discriminate|cbn; lia]).
  specialize (Hc eq_refl). apply (loopBody_stops d) in Hc.
  rewrite bind_value, bind_trace, iterations_app.
  rewrite (LiveBody_iterations _ _ _ _ (loopBody_live d cutoff _)).
  destruct (value_of (loopBody d false cutoff (world_of (loopBody d false cutoff w))));
    cbn [ret value_of trace_of fst snd]; try (split; [discriminate|cbn; lia]).
  congruence.
Qed.

Lemma isOpen_In c w : isOpen c w = true <-> In c (sessions w).
Proof.
  unfold isOpen. rewrite existsb_exists. split.
  - intros (x & Hin & Heq). apply Nat.eqb_eq in Heq. now subst.
  - intros Hin. exists c. split; [assumption|apply Nat.eqb_refl].
Qed.

Lemma popFault_nil w : faults w = [] -> popFault w = (w, None).
Proof. unfold popFault. now intros ->. Qed.

Lemma step_faults w e w' : step w e w' -> faults w = [] -> faults w' = [].
Proof.
  intros Hs Hf.
  assert (popFault (advance w) = (advance w, None)) as Hp by (apply popFault_nil; exact Hf).
  destruct Hs as [url w' r H|c' w' err H|c' sql args w' n err H|c' sql args w' r H
                 |c' sql w' r H|w' tm H| | |]; auto; cbn in H.
  - unfold connect in H. rewrite Hp in H. inversion H; subst; exact Hf.
  - unfold close in H. rewrite Hp in H. inversion H; subst; exact Hf.
  - unfold exec in H. destruct (isOpen c' w); [|inversion H; subst; exact Hf].
    rewrite Hp in H.
    destruct (execute sql args (composes (advance w)) (clones (advance w)))
      as [[[cs cls] n']|]; inversion H; subst; exact Hf.
  - unfold queryRow in H. destruct (isOpen c' w); [|inversion H; subst; exact Hf].
    rewrite Hp in H.
    destruct (evaluate sql args (advance w)); inversion H; subst; exact Hf.
  - unfold query in H. destruct (isOpen c' w); [|inversion H; subst; exact Hf].
    destruct sql; try (inversion H; subst; exact Hf).
    unfold popStats in H. destruct (stats (advance w)); inversion H; subst; exact Hf.
  - unfold now in H. inversion H; subst; exact Hf.
Qed.

Lemma step_healthy c w e w' :
  step w e w' -> is_close e = false -> healthy c w -> healthy c w'.
Proof.
  intros Hs Hne [Hf Hin]. split; [eapply step_faults|eapply step_session]; eassumption.
Qed.

(** Without faults a statement sent over an open connection fails only
    if the server rejects it. *)
Lemma healthy_exec c sql args n err w w' :
  healthy c w -> step w (EvExec c sql args n (Some err)) w' ->
  execute sql args (composes w) (clones w) = None.
Proof.
  intros [Hf Hin] Hs. apply step_exec_inv in Hs. unfold exec in Hs.
  apply isOpen_In in Hin. rewrite Hin in Hs.
  rewrite (popFault_nil (advance w) Hf) in Hs. cbn [advance composes clones] in Hs.
  destruct (execute sql args (composes w) (clones w)) as [[[cs cls] n']|];
    [inversion Hs|reflexivity].
Qed.

Lemma LiveLoop_healthy c cutoff t ex :
  LiveLoop c cutoff t ex ->
  forall w w', steps w t w' -> healthy c w -> forall err, ex <> Aborted err.
Proof.
  induction 1 as [r1 r3|r1 r2 r3 rest ex Hnz Hl IH| |r1 e0|r1 r2 e0|r1 r2 r3 e0];
    intros w w' Hs Hh err; try discriminate.
  - apply steps_app_inv in Hs. destruct Hs as (w1 & Hit & Hrest).
    inversion Hrest as [|? ? w2 ? ? Hlog Hrest']; subst.
    inversion Hlog; subst.
    apply (IH _ _ Hrest'). unfold iteration in Hit.
    inversion Hit as [|? ? wa ? ? H1 Hs1]; subst.
    inversion Hs1 as [|? ? wb ? ? H2 Hs2]; subst.
    inversion Hs2 as [|? ? wc ? ? H3 Hs3]; subst. inversion Hs3; subst.
    eapply step_healthy; [exact H3|reflexivity|].
    eapply step_healthy; [exact H2|reflexivity|].
    eapply step_healthy; [exact H1|reflexivity|assumption].
  - inversion Hs as [|? ? wa ? ? H1 Hs1]; subst.
    apply (healthy_exec _ _ _ _ _ _ _ Hh) in H1. discriminate.
  - inversion Hs as [|? ? wa ? ? H1 Hs1]; subst.
    inversion Hs1 as [|? ? wb ? ? H2 Hs2]; subst.
    assert (healthy c wa) as Ha by (eapply step_healthy; [exact H1|reflexivity|assumption]).
    apply (healthy_exec _ _ _ _ _ _ _ Ha) in H2. discriminate.
  - inversion Hs as [|? ? wa ? ? H1 Hs1]; subst.
    inversion Hs1 as [|? ? wb ? ? H2 Hs2]; subst.
    inversion Hs2 as [|? ? wc ? ? H3 Hs3]; subst.
    assert (healthy c wa) as Ha by (eapply step_healthy; [exact H1|reflexivity|assumption]).
    assert (healthy c wb) as Hb by (eapply step_healthy; [exact H2|reflexivity|assumption]).
    apply (healthy_exec _ _ _ _ _ _ _ Hb) in H3. discriminate.
Qed.

Lemma steps_healthy c w t w' :
  steps w t w' -> Forall (fun e => is_close e = false) t -> healthy c w -> healthy c w'.
Proof.
  induction 1 as [w|w e w1 t w2 Hs _ IH]; intros Hall Hh; [assumption|].
  inversion Hall; subst. apply IH; [assumption|]. eapply step_healthy; eassumption.
Qed.

Lemma connect_healthy w url r w' :
  step w (EvConnect url r) w' -> faults w = [] ->
  exists c, r = Ok c /\ healthy c w'.
Proof.
  intros Hs Hf. inversion Hs as [url' w'' r' H| | | | | | | |]; subst. cbn in H.
  unfold connect in H. rewrite (popFault_nil (advance w) Hf) in H.
  inversion H; subst. eexists; split; [reflexivity|]. split; [exact Hf|now left].
Qed.

End RelationalRun.

Section CleanupOnTables.
Import Rel.

Implicit Types (w : World) (e : Event Z nat) (t : list (Event Z nat)).

(** What a live run that returned no error leaves in the tables. *)
Lemma DBCleanup_cleans fuel url months w :
  let r := DBCleanup fuel url false months w in
  value_of r = Returned None ->
  exists cutoff,
    cutoffOf months (trace_of r) = Some cutoff
    /\ noExpired cutoff (composes (world_of r))
    /\ noReference cutoff (composes w) (clones (world_of r)).
Proof.
  cbn zeta. intros Hv.
  pose proof (sound_DBCleanup fuel url false months w) as Hs.
  destruct (DBCleanup_shape fuel url false months w)
    as [(err & _ & Hv1)|(c & t1 & tm & w' & t3 & Ht & Hr1 & Hex)]; [congruence|].
  cbn zeta in Ht, Hex.
  pose proof (cleanupLoop_live fuel {| Conn := c |} (retentionDate tm months) w') as HL.
  destruct (value_of (cleanupLoop fuel {| Conn := c |} false (retentionDate tm months) w'))
    eqn:Hl; destruct Hex as [Ht3 Hv1]; try congruence.
  rewrite Ht in Hs. apply steps_run_inv in Hs.
  destruct Hs as (wa & wb & wc & wd & H1 & H2 & H3 & H4 & H5).
  apply step_frame in H1; [|reflexivity]. destruct H1 as [Hca Hla].
  apply steps_frame in H2; [|eapply Forall_impl; [|exact Hr1]; apply report_no_exec].
  destruct H2 as [Hcb Hlb].
  apply step_frame in H3; [|reflexivity]. destruct H3 as [Hcc Hlc].
  apply steps_frame in H5; [|eapply Forall_impl; [|exact Ht3]; apply report_no_exec].
  destruct H5 as [Hcf Hlf].
  destruct (LiveLoop_cleans _ _ _ _ HL eq_refl _ _ H4) as [Hno Hnr].
  exists (retentionDate tm months). split; [|split].
  - rewrite Ht. apply (cutoffOf_found months (EvConnect url (Ok c) :: t1)).
    constructor; [split; reflexivity|].
    eapply Forall_impl; [|exact Hr1]. apply report_before_cutoff.
  - rewrite Hcf. exact Hno.
  - rewrite Hlf. rewrite Hcc, Hcb, Hca in Hnr. exact Hnr.
Qed.


(** C3. After a live run that returns no error, with [cutoff] the
    cutoff of the run: no compose created before [cutoff] is left, and
    no clone is left that refers to such a compose, be it one of the
    composes left or one of those the database held at the start. *)
Theorem expired_rows_gone fuel url months w :
  let r := DBCleanup fuel url false months w in
  value_of r = Returned None ->
  exists cutoff,
    cutoffOf months (trace_of r) = Some cutoff
    /\ noExpired cutoff (composes (world_of r))
    /\ noReference cutoff (composes (world_of r)) (clones (world_of r))
    /\ noReference cutoff (composes w) (clones (world_of r)).
Proof.
  cbn zeta. intros Hv.
  destruct (DBCleanup_cleans fuel url months w Hv) as (cutoff & Hc & Hno & Hnr).
  exists cutoff. repeat split; try assumption.
  intros cl c _ Hin Hlt _. exact (Hno c Hin Hlt).
Qed.

(** C7. A dry run leaves both tables as they were and sends no
    statement through [Exec]: neither a deletion nor the reclaim. *)
Theorem dry_run_changes_nothing fuel url months w :
  let r := DBCleanup fuel url true months w in
  composes (world_of r) = composes w
  /\ clones (world_of r) = clones w
  /\ Forall (fun e => is_exec e = false) (trace_of r).
Proof.
  cbn zeta. pose proof (DBCleanup_dry_no_exec fuel url months w) as Hne.
  destruct (steps_frame _ _ _ (sound_DBCleanup fuel url true months w) Hne) as [Hc Hl].
  auto.
Qed.

(** C8. On a static dataset the live loop never needs more than two
    passes: given two, DBCleanup returns; a run that returns no error
    ends its loop with a pass whose compose deletion affected zero
    rows, followed only by the statistics report; and a run without
    scheduled faults returns no error. *)
Theorem live_loop_terminates fuel url months w :
  (2 <= fuel)%nat ->
  let r := DBCleanup fuel url false months w in
  value_of r <> Running
  /\ (iterations (trace_of r) <= 2)%nat
  /\ (value_of r = Returned None ->
      exists pre c cutoff r1 r3 post,
        trace_of r = pre ++ iteration c cutoff r1 0 r3 ++ post /\ reports post)
  /\ (faults w = [] -> value_of r = Returned None).
Proof.
  intros Hfuel. cbn zeta.
  pose proof (sound_DBCleanup fuel url false months w) as Hs.
  destruct (DBCleanup_shape fuel url false months w)
    as [(err & Ht & Hv)|(c & t1 & tm & w' & t3 & Ht & Hr1 & Hex)].
  { rewrite Ht, Hv. repeat split; try discriminate.
    - cbn. lia.
    - intros Hf. rewrite Ht in Hs. inversion Hs as [|? ? wa ? ? H1 _]; subst.
      destruct (connect_healthy _ _ _ _ H1 Hf) as (c & Hc & _). discriminate. }
  cbn zeta in Ht, Hex.
  pose proof (cleanupLoop_live fuel {| Conn := c |} (retentionDate tm months) w') as HL.
  destruct (cleanupLoop_two_passes fuel {| Conn := c |} (retentionDate tm months) w' Hfuel)
    as [Hterm Hiter].
  assert (iterations (trace_of (DBCleanup fuel url false months w)) <= 2)%nat as Hcount.
  { rewrite Ht.
    change (EvConnect url (Ok c) :: t1 ++ EvNow tm
              :: trace_of (cleanupLoop fuel {| Conn := c |} false (retentionDate tm months) w')
              ++ t3)
      with ([EvConnect url (Ok c)] ++ t1 ++ [EvNow tm]
              ++ trace_of (cleanupLoop fuel {| Conn := c |} false (retentionDate tm months) w')
              ++ t3).
    rewrite !iterations_app. rewrite (reports_iterations t1 Hr1).
    assert (iterations t3 = O) as ->.
    { destruct (value_of (cleanupLoop fuel {| Conn := c |} false (retentionDate tm months) w'));
        destruct Hex as [Ht3 _]; subst; [apply reports_iterations; assumption| |];
        reflexivity. }
    change (iterations [EvConnect url (Ok c)]) with O.
    change (iterations [EvNow tm]) with O. lia. }
  rewrite Ht in Hs. apply steps_run_inv in Hs.
  destruct Hs as (wa & wb & wc & wd & H1 & H2 & H3 & H4 & H5).
  destruct (value_of (cleanupLoop fuel {| Conn := c |} false (retentionDate tm months) w'))
    as [|err|] eqn:Hl; [| |congruence]; destruct Hex as [Ht3 Hv]; rewrite Hv.
  - repeat split; try discriminate; try assumption.
    intros _. destruct (LiveLoop_broke _ _ _ _ HL eq_refl) as (pre & r1 & r3 & Hpre).
    exists (EvConnect url (Ok c) :: t1 ++ EvNow tm :: pre), c, (retentionDate tm months),
      r1, r3, t3.
    split; [|assumption]. rewrite Ht, Hpre.
    cbn [app Conn]. f_equal. rewrite <- !app_assoc. reflexivity.
  - repeat split; try discriminate; try assumption.
    intros Hf. exfalso.
    destruct (connect_healthy _ _ _ _ H1 Hf) as (c' & Hc & Hh). inversion Hc; subst c'.
    assert (healthy c wc) as Hhc.
    { eapply step_healthy; [exact H3|reflexivity|].
      eapply steps_healthy; [exact H2| |exact Hh].
      eapply Forall_impl; [|exact Hr1]. apply report_no_close. }
    exact (LiveLoop_healthy _ _ _ _ HL _ _ H4 Hhc err eq_refl).
Qed.

(** C9. After a live run that returned no error, a second live run
    started on the tables the first one left and working with the same
    cutoff changes neither table, and every deletion of it that
    succeeds reports zero rows. *)
Theorem second_pass_deletes_nothing fuel1 fuel2 url1 url2 months1 months2 w w2 :
  let r1 := DBCleanup fuel1 url1 false months1 w in
  let r2 := DBCleanup fuel2 url2 false months2 w2 in
  value_of r1 = Returned None ->
  composes w2 = composes (world_of r1) ->
  clones w2 = clones (world_of r1) ->
  cutoffOf months2 (trace_of r2) = cutoffOf months1 (trace_of r1) ->
  composes (world_of r2) = composes w2
  /\ clones (world_of r2) = clones w2
  /\ Forall deletes_nothing (trace_of r2).
Proof.
  cbn zeta. intros Hv Hc Hl Hcut.
  destruct (DBCleanup_cleans fuel1 url1 months1 w Hv) as (cutoff & Hc1 & Hno & _).
  rewrite Hc1 in Hcut. rewrite <- Hc in Hno.
  pose proof (sound_DBCleanup fuel2 url2 false months2 w2) as Hs.
  apply (steps_nothing_left cutoff _ _ _ Hs Hno).
  destruct (DBCleanup_cutoff fuel2 url2 false months2 w2)
    as [(err & Ht)|(pre & tm & post & Ht & Hpre & Hpost)]; cbn zeta in Ht.
  { rewrite Ht. repeat constructor. }
  rewrite Ht in Hcut |- *. rewrite (cutoffOf_found months2 pre tm post Hpre) in Hcut.
  assert (retentionDate tm months2 = cutoff) as Heq by congruence.
  rewrite Heq in Hpost.
  apply Forall_app; split.
  - eapply Forall_impl; [|exact Hpre]. intros e [_ He].
    destruct e as [| |c' [] args n err| | | | | |]; cbn in *; auto; discriminate.
  - constructor; [exact I|]. eapply Forall_impl; [|exact Hpost].
    intros e He. destruct e as [| |c' [] args n err| | | | | |]; cbn in *; auto.
Qed.

End CleanupOnTables.

(** ** Worked runs *)

Section Runs.
Import Rel.

(** A live run on the sample dataset: two passes, the second deleting
    nothing; the old compose and its clone are gone, the fresh ones
    stay. *)
Example live_run_on_sample :
  let r := DBCleanup 3 "postgres://db" false 1 (sampleWorld 1 [] []) in
  value_of r = Returned None
  /\ composes (world_of r) = [mkCompose "fresh" 1793404800]
  /\ clones (world_of r) = [mkClone "k2" "fresh"]
  /\ iterations (trace_of r) = 2%nat
  /\ cutoffOf 1 (trace_of r) = Some 1790860802.
Proof. vm_compute. repeat split. Qed.

(** A dry run on the same dataset counts one expired compose and one
    clone of it. *)
Example dry_run_on_sample :
  let r := DBCleanup 1 "postgres://db" true 1 (sampleWorld 1 [] []) in
  value_of r = Returned None
  /\ In (EvLogf Info "Dryrun, expired composes count: %d (affecting %d clones)"
                [VInt 1; VInt 1]) (trace_of r).
Proof. vm_compute. split; [reflexivity|]. do 6 right. left. reflexivity. Qed.

(** 2026-10-31 minus one month is 2026-10-01: September has no 31st. *)
Example AddDate_normalises :
  AddDate (daysFromCivil 2026 10 31 * 86400) 0 (-1) 0 = daysFromCivil 2026 10 1 * 86400.
Proof. vm_compute. reflexivity. Qed.

(** At the least [int] the product with -1 wraps around to itself. *)
Example mulInt_least : mulInt (- 2 ^ 63) (-1) = - 2 ^ 63.
Proof. vm_compute. reflexivity. Qed.




Lemma expired_rows_gone_witness :
  exists cutoff,
    cutoffOf 1 (trace_of (DBCleanup 3 "postgres://db" false 1 (sampleWorld 1 [] [])))
    = Some cutoff
    /\ noExpired cutoff
         (composes (world_of (DBCleanup 3 "postgres://db" false 1 (sampleWorld 1 [] []))))
    /\ noReference cutoff
         (composes (world_of (DBCleanup 3 "postgres://db" false 1 (sampleWorld 1 [] []))))
         (clones (world_of (DBCleanup 3 "postgres://db" false 1 (sampleWorld 1 [] []))))
    /\ noReference cutoff (composes (sampleWorld 1 [] []))
         (clones (world_of (DBCleanup 3 "postgres://db" false 1 (sampleWorld 1 [] [])))).
Proof.
  apply (expired_rows_gone 3 "postgres://db" 1 (sampleWorld 1 [] [])).
  vm_compute. reflexivity.
Defined.




Lemma live_loop_terminates_witness :
  value_of (DBCleanup 2 "postgres://db" false 1 (sampleWorld 1 [] [])) = Returned None.
Proof.
  apply (live_loop_terminates 2 "postgres://db" 1 (sampleWorld 1 [] []) (le_n 2)).
  reflexivity.
Defined.

(** The clock of this world stands still, so that a second run
    computes the cutoff of the first. *)
Lemma second_pass_deletes_nothing_witness :
  let r1 := DBCleanup 3 "postgres://db" false 1 (sampleWorld 0 [] []) in
  let r2 := DBCleanup 3 "postgres://db" false 1 (world_of r1) in
  composes (world_of r2) = composes (world_of r1)
  /\ clones (world_of r2) = clones (world_of r1)
  /\ Forall deletes_nothing (trace_of r2).
Proof.
  cbn zeta.
  apply (second_pass_deletes_nothing 3 3 "postgres://db" "postgres://db" 1 1
           (sampleWorld 0 [] [])
           (world_of (DBCleanup 3 "postgres://db" false 1 (sampleWorld 0 [] [])))).
  - vm_compute. reflexivity.
  - reflexivity.
  - reflexivity.
  - vm_compute. reflexivity.
Defined.

End Runs.

(** * Further properties of the code *)

(** ** Against every environment *)

Section MoreOfTheRun.
Context {W Time PgxConn : Type} `{E : Env W Time PgxConn}.

Implicit Types (e : Event Time PgxConn) (t : list (Event Time PgxConn)) (w : W).

Lemma statsLoop_closed_form (pending : list (result (StatRow Time))) final w :
  statsLoop (PgxConn := PgxConn) pending final 0 w
  = (w, map statsRecord (scanned pending),
     (0, match scanError pending with Some err => Some err | None => final end)).
Proof.
  induction pending as [|[row|err] rest IH]; cbn [statsLoop scanned scanError map].
  - destruct final; reflexivity.
  - unfold bind, emit. rewrite IH. reflexivity.
  - reflexivity.
Qed.

Lemma LogVacuumStats_closed_form d w :
  LogVacuumStats d w
  = match pgx_Query (Conn d) sqlVacuumStats w with
    | (w', Ok rows) =>
        (w', EvQuery (Conn d) sqlVacuumStats None
               :: map statsRecord (scanned (fetched rows)) ++ [EvRowsClose],
         (0, match scanError (fetched rows) with
             | Some err => Some err
             | None => rowsErr rows
             end))
    | (w', Err err) =>
        (w', [EvQuery (Conn d) sqlVacuumStats (Some err)],
         (0, Some (Errorf "Error querying vacuum stats: " err)))
    end.
Proof.
  unfold LogVacuumStats, bind, Query, emit, ret.
  destruct (pgx_Query (Conn d) sqlVacuumStats w) as [w' [rows|err]]; [|reflexivity].
  rewrite statsLoop_closed_form. reflexivity.
Qed.

Lemma statsQueries_app t1 t2 : statsQueries (t1 ++ t2) = (statsQueries t1 + statsQueries t2)%nat.
Proof. unfold statsQueries. now rewrite filter_app, length_app. Qed.

Lemma statsQueries_records (rows : list (StatRow Time)) :
  statsQueries (map (statsRecord (PgxConn := PgxConn)) rows) = O.
Proof. induction rows as [|r rows IH]; [reflexivity|exact IH]. Qed.

Lemma reportStats_one_query d w : statsQueries (trace_of (reportStats d w)) = 1%nat.
Proof.
  unfold reportStats, bind. rewrite LogVacuumStats_closed_form.
  destruct (pgx_Query (Conn d) sqlVacuumStats w) as [w' [rows|err]]; [|reflexivity].
  cbn [snd].
  destruct (match scanError (fetched rows) with Some err => Some err | None => rowsErr rows end);
    cbn [logf emit ret trace_of fst snd];
    rewrite statsQueries_app;
    change (statsQueries (EvQuery (Conn d) sqlVacuumStats None
                            :: map statsRecord (scanned (fetched rows)) ++ [EvRowsClose]))
      with (S (statsQueries (map (statsRecord (PgxConn := PgxConn)) (scanned (fetched rows))
                               ++ [EvRowsClose])));
    rewrite statsQueries_app, statsQueries_records; reflexivity.
Qed.

Lemma live_no_stats_query (c : PgxConn) (cutoff : Time) e :
  live_event c cutoff e -> is_stats_query e = false.
Proof. destruct e; cbn; tauto. Qed.

Lemma dry_no_stats_query (c : PgxConn) (cutoff : Time) e :
  dry_event c cutoff e -> is_stats_query e = false.
Proof. destruct e; cbn; tauto. Qed.

Lemma cleanupLoop_no_stats_query fuel d dryRun cutoff w :
  statsQueries (trace_of (cleanupLoop fuel d dryRun cutoff w)) = O.
Proof.
  unfold statsQueries.
  rewrite filter_none; [reflexivity|]. intros e Hin.
  pose proof (cleanupLoop_events fuel d dryRun cutoff w) as Hall.
  rewrite Forall_forall in Hall. destruct (Hall e Hin) as [H|H];
    [eapply live_no_stats_query|eapply dry_no_stats_query]; eassumption.
Qed.

(** The run unfolded along the answer to the connection attempt. *)
Lemma DBCleanup_unfold fuel url dryRun months w :
  DBCleanup fuel url dryRun months w
  = match pgx_Connect url w with
    | (w1, Err err) => (w1, [EvConnect url (Err err)], Returned (Some err))
    | (w1, Ok c) =>
        let db := {| Conn := c |} in
        let s1 := reportStats db w1 in
        let n := time_Now (world_of s1) in
        let l := cleanupLoop fuel db dryRun (retentionDate (snd n) months) (fst n) in
        match value_of l with
        | Broke =>
            let s2 := reportStats db (world_of l) in
            (world_of s2,
             EvConnect url (Ok c) :: trace_of s1 ++ EvNow (snd n) :: trace_of l ++ trace_of s2,
             Returned None)
        | Aborted err =>
            (world_of l, EvConnect url (Ok c) :: trace_of s1 ++ EvNow (snd n) :: trace_of l,
             Returned (Some err))
        | OutOfFuel =>
            (world_of l, EvConnect url (Ok c) :: trace_of s1 ++ EvNow (snd n) :: trace_of l,
             Running)
        end
    end.
Proof.
  unfold DBCleanup, newDB, bind, Connect, ret.
  destruct (pgx_Connect url w) as [w1 [c|err]]; [|reflexivity].
  cbn zeta. destruct (reportStats {| Conn := c |} w1) as [[w2 t1] []].
  unfold Now. cbn [world_of fst snd]. destruct (time_Now w2) as [w3 tm].
  cbn [fst snd].
  destruct (cleanupLoop fuel {| Conn := c |} dryRun (retentionDate tm months) w3)
    as [[w4 t2] ex].
  cbn [value_of world_of trace_of fst snd]. destruct ex as [|err|].
  - destruct (reportStats {| Conn := c |} w4) as [[w5 t3] []].
    cbn [value_of world_of trace_of fst snd app]. rewrite app_nil_r. reflexivity.
  - cbn [app]. rewrite !app_nil_r. reflexivity.
  - cbn [app]. rewrite !app_nil_r. reflexivity.
Qed.

(** X1. When the connection attempt fails, DBCleanup returns the error
    of [pgx.Connect] as it is, and does nothing else: no statistics
    query, no reading of the clock, no count, no deletion. *)
Theorem connection_failure_ends_run fuel url dryRun months w w' err :
  pgx_Connect url w = (w', Err err) ->
  DBCleanup fuel url dryRun months w = (w', [EvConnect url (Err err)], Returned (Some err)).
Proof. intros H. rewrite DBCleanup_unfold, H. reflexivity. Qed.

(** X2. When the statistics query succeeds, LogVacuumStats logs one
    record per row, in the order of the cursor, for the rows before the
    first one that fails to scan, logs nothing for the rows after it,
    and releases the cursor last, on every return path. *)
Theorem LogVacuumStats_logs_rows_until_scan_fails d w w' rows :
  pgx_Query (Conn d) sqlVacuumStats w = (w', Ok rows) ->
  trace_of (LogVacuumStats d w)
  = EvQuery (Conn d) sqlVacuumStats None
      :: map statsRecord (scanned (fetched rows)) ++ [EvRowsClose]
  /\ world_of (LogVacuumStats d w) = w'.
Proof. intros H. rewrite LogVacuumStats_closed_form, H. split; reflexivity. Qed.

(** X3. LogVacuumStats returns no error exactly when the query
    succeeded, every row scanned and the cursor reports no error; a scan
    error is returned as it is and goes before the error of the cursor,
    and the error of the query comes wrapped. *)
Theorem LogVacuumStats_error d w :
  let q := snd (pgx_Query (Conn d) sqlVacuumStats w) in
  let err := snd (value_of (LogVacuumStats d w)) in
  (err = None <->
   exists rows, q = Ok rows /\ forallb scans (fetched rows) = true /\ rowsErr rows = None)
  /\ (forall rows qerr, q = Ok rows -> scanError (fetched rows) = Some qerr -> err = Some qerr)
  /\ (forall rows, q = Ok rows -> forallb scans (fetched rows) = true -> err = rowsErr rows)
  /\ (forall qerr, q = Err qerr -> err = Some (Errorf "Error querying vacuum stats: " qerr)).
Proof.
  cbn zeta. rewrite LogVacuumStats_closed_form.
  assert (forall pending : list (result (StatRow Time)),
            forallb scans pending = true <-> scanError pending = None) as Hscan.
  { induction pending as [|[row|serr] rest IH]; cbn; [tauto|exact IH|].
    split; discriminate. }
  destruct (pgx_Query (Conn d) sqlVacuumStats w) as [w' [rows|serr]];
    cbn [snd value_of fst].
  - repeat split.
    + intros Herr. exists rows. destruct (scanError (fetched rows)) eqn:Hs; [discriminate|].
      repeat split; [apply Hscan; exact Hs|exact Herr].
    + intros (rows' & Hq & Hall & Hrows). inversion Hq; subst rows'.
      apply Hscan in Hall. rewrite Hall. exact Hrows.
    + intros rows' qerr Hq Hs. inversion Hq; subst rows'. rewrite Hs. reflexivity.
    + intros rows' Hq Hall. inversion Hq; subst rows'.
      apply Hscan in Hall. rewrite Hall. reflexivity.
    + intros qerr Hq. discriminate.
  - repeat split; try discriminate.
    + intros (rows & Hq & _). discriminate.
    + intros qerr Hq. inversion Hq; subst. reflexivity.
Qed.

(** X4. Once connected, a dry run that is given one pass makes exactly
    one: it counts the expired clones, then the expired composes, both
    with the cutoff of the run, logs the two numbers, a failed count
    showing as 0, and returns no error, between the two statistics
    reports. *)
Theorem dry_run_counts_once fuel url months w w1 c :
  pgx_Connect url w = (w1, Ok c) ->
  fuel <> O ->
  exists t1 tm rc r t3,
    trace_of (DBCleanup fuel url true months w)
    = EvConnect url (Ok c) :: t1 ++ EvNow tm
        :: dryRunTrace c (retentionDate tm months) rc r ++ t3
    /\ reports t1 /\ reports t3
    /\ value_of (DBCleanup fuel url true months w) = Returned None.
Proof.
  intros Hc Hfuel. rewrite DBCleanup_unfold, Hc. cbn zeta.
  destruct fuel as [|fuel]; [congruence|].
  set (db := {| Conn := c |}).
  set (n := time_Now (world_of (reportStats db w1))).
  destruct (cleanupLoop_dry fuel db (retentionDate (snd n) months) (fst n))
    as (rc & r & Ht & Hv).
  rewrite Hv, Ht.
  exists (trace_of (reportStats db w1)), (snd n), rc, r,
    (trace_of (reportStats db
                 (world_of (cleanupLoop (S fuel) db true (retentionDate (snd n) months) (fst n))))).
  cbn [trace_of value_of fst snd].
  repeat split; try apply reportStats_report.
Qed.

(** X5. The statistics query runs twice in a run that returns no error,
    once in a run aborted by a deletion or reclaim error (the closing
    report is skipped), and not at all when the connection fails. *)
Theorem statistics_queries_of_a_run fuel url dryRun months w :
  let r := DBCleanup fuel url dryRun months w in
  match snd (pgx_Connect url w), value_of r with
  | Err _, _ => statsQueries (trace_of r) = O
  | Ok _, Returned None => statsQueries (trace_of r) = 2%nat
  | Ok _, _ => statsQueries (trace_of r) = 1%nat
  end.
Proof.
  cbn zeta. rewrite DBCleanup_unfold.
  destruct (pgx_Connect url w) as [w1 [c|err]]; cbn [snd]; [|reflexivity].
  cbn zeta.
  set (db := {| Conn := c |}).
  set (n := time_Now (world_of (reportStats db w1))).
  set (l := cleanupLoop fuel db dryRun (retentionDate (snd n) months) (fst n)).
  assert (forall t3,
            statsQueries (EvConnect url (Ok c) :: trace_of (reportStats db w1)
                            ++ EvNow (snd n) :: trace_of l ++ t3)
            = S (statsQueries t3)) as Hcount.
  { intros t3.
    change (EvConnect url (Ok c) :: trace_of (reportStats db w1)
              ++ EvNow (snd n) :: trace_of l ++ t3)
      with ([EvConnect url (Ok c)] ++ trace_of (reportStats db w1)
              ++ [EvNow (snd n)] ++ trace_of l ++ t3).
    rewrite !statsQueries_app, reportStats_one_query.
    unfold l. rewrite cleanupLoop_no_stats_query. reflexivity. }
  destruct (value_of l) as [|err|]; cbn [value_of trace_of fst snd].
  - rewrite Hcount, reportStats_one_query. reflexivity.
  - rewrite <- (app_nil_r (trace_of l)), Hcount. reflexivity.
  - rewrite <- (app_nil_r (trace_of l)), Hcount. reflexivity.
Qed.

End MoreOfTheRun.

(** ** Against the relational environment *)

Section MoreOnTables.
Import Rel.

Implicit Types (w : World) (e : Event Z nat) (t : list (Event Z nat)) (d : maintenanceDB nat).

Lemma live_deletes_before (c : nat) (cutoff : Z) e :
  live_event c cutoff e -> deletes_before cutoff e.
Proof. destruct e as [| |c' [] args n err| | | | | |]; cbn; tauto. Qed.

Lemma DBCleanup_deletes_before fuel url dryRun months w cutoff :
  cutoffOf months (trace_of (DBCleanup fuel url dryRun months w)) = Some cutoff ->
  Forall (deletes_before cutoff) (trace_of (DBCleanup fuel url dryRun months w)).
Proof.
  intros Hcut.
  destruct (DBCleanup_cutoff fuel url dryRun months w)
    as [(err & Ht)|(pre & tm & post & Ht & Hpre & Hpost)]; cbn zeta in Ht.
  { rewrite Ht. repeat constructor. }
  rewrite Ht in Hcut |- *. rewrite (cutoffOf_found months pre tm post Hpre) in Hcut.
  assert (retentionDate tm months = cutoff) as Heq by congruence.
  rewrite Heq in Hpost.
  apply Forall_app; split.
  - eapply Forall_impl; [|exact Hpre]. intros e [_ He].
    destruct e as [| |c' [] args n err| | | | | |]; cbn in *; auto; discriminate.
  - constructor; [exact I|]. eapply Forall_impl; [|exact Hpost].
    intros e He. destruct e as [| |c' [] args n err| | | | | |]; cbn in *; auto.
Qed.

Lemma cutoffOf_refused months url err :
  cutoffOf months ([EvConnect url (Err err)] : list (Event Z nat)) = None.
Proof. reflexivity. Qed.

(** The tables a live loop left by [break] leaves behind. *)
Lemma LiveLoop_result c cutoff t ex :
  LiveLoop c cutoff t ex -> ex = Broke ->
  forall w w', steps w t w' ->
    composes w' = filter (fun x => negb (expired cutoff x)) (composes w)
    /\ clones w' = filter (fun cl => negb (references (expiredIds cutoff (composes w)) cl))
                          (clones w).
Proof.
  destruct 1 as [r1 r3|r1 r2 r3 rest ex Hnz Hl| | | |]; intros Hex w w' Hs; try discriminate.
  - destruct (iteration_effect _ _ _ _ _ _ _ Hs) as (Hc & Hcl & _). auto.
  - apply steps_app_inv in Hs. destruct Hs as (w1 & Hit & Hrest).
    destruct (iteration_effect _ _ _ _ _ _ _ Hit) as (Hc & Hcl & _).
    assert (noExpired cutoff (composes w1)) as Hno
        by (rewrite Hc; apply noExpired_after_delete).
    assert (Forall (deletes_before cutoff)
                   (EvLogf Info "Deleted results for %d" [VInt r2] :: rest)) as Hall.
    { constructor; [exact I|]. eapply Forall_impl; [|eapply LiveLoop_events; exact Hl].
      intros e; apply live_deletes_before. }
    destruct (steps_nothing_left cutoff _ _ _ Hrest Hno Hall) as (-> & -> & _). auto.
Qed.

(** X6. A live run that returns no error leaves exactly the composes
    created at or after its cutoff and exactly the clones that referred
    to no compose created before it, each table in its order. *)
Theorem live_run_leaves_the_unexpired fuel url months w :
  let r := DBCleanup fuel url false months w in
  value_of r = Returned None ->
  exists cutoff,
    cutoffOf months (trace_of r) = Some cutoff
    /\ composes (world_of r) = filter (fun c => negb (expired cutoff c)) (composes w)
    /\ clones (world_of r)
       = filter (fun cl => negb (references (expiredIds cutoff (composes w)) cl)) (clones w).
Proof.
  cbn zeta. intros Hv.
  pose proof (sound_DBCleanup fuel url false months w) as Hs.
  destruct (DBCleanup_shape fuel url false months w)
    as [(err & _ & Hv1)|(c & t1 & tm & w' & t3 & Ht & Hr1 & Hex)]; [congruence|].
  cbn zeta in Ht, Hex.
  pose proof (cleanupLoop_live fuel {| Conn := c |} (retentionDate tm months) w') as HL.
  destruct (value_of (cleanupLoop fuel {| Conn := c |} false (retentionDate tm months) w'))
    eqn:Hl; destruct Hex as [Ht3 Hv1]; try congruence.
  rewrite Ht in Hs. apply steps_run_inv in Hs.
  destruct Hs as (wa & wb & wc & wd & H1 & H2 & H3 & H4 & H5).
  apply step_frame in H1; [|reflexivity]. destruct H1 as [Hca Hla].
  apply steps_frame in H2; [|eapply Forall_impl; [|exact Hr1]; apply report_no_exec].
  destruct H2 as [Hcb Hlb].
  apply step_frame in H3; [|reflexivity]. destruct H3 as [Hcc Hlc].
  apply steps_frame in H5; [|eapply Forall_impl; [|exact Ht3]; apply report_no_exec].
  destruct H5 as [Hcf Hlf].
  destruct (LiveLoop_result _ _ _ _ HL eq_refl _ _ H4) as [Hc Hcl].
  exists (retentionDate tm months). split; [|split].
  - rewrite Ht. apply (cutoffOf_found months (EvConnect url (Ok c) :: t1)).
    constructor; [split; reflexivity|].
    eapply Forall_impl; [|exact Hr1]. apply report_before_cutoff.
  - rewrite Hcf, Hc, Hcc, Hcb, Hca. reflexivity.
  - rewrite Hlf, Hcl, Hcc, Hcb, Hca, Hlc, Hlb, Hla. reflexivity.
Qed.

(** *** What no run deletes *)

Lemma expiredIds_incl cutoff cs1 cs :
  incl cs1 cs -> incl (expiredIds cutoff cs1) (expiredIds cutoff cs).
Proof.
  intros Hincl x Hin. unfold expiredIds in *. apply in_map_iff in Hin.
  destruct Hin as (c & Hx & Hc). apply filter_In in Hc. destruct Hc as [Hc He].
  apply in_map_iff. exists c. split; [assumption|]. apply filter_In. auto.
Qed.

Lemma references_mono ids1 ids2 cl :
  incl ids1 ids2 -> references ids2 cl = false -> references ids1 cl = false.
Proof.
  intros Hincl H2. destruct (references ids1 cl) eqn:H1; [|reflexivity].
  apply references_true in H1. apply Hincl in H1. apply references_true in H1. congruence.
Qed.

Lemma execute_keeps sql args cutoff cs cls cs' cls' n :
  deletes_before cutoff (EvExec 0%nat sql args n None : Event Z nat) ->
  execute sql args cs cls = Some (cs', cls', n) ->
  keeps cutoff cs cls cs' cls'.
Proof.
  intros Hd Hx.
  assert (forall a, sql = sqlDeleteClones \/ sql = sqlDeleteComposes -> args = [a] ->
                    a = cutoff) as Harg.
  { intros a [->| ->] ->; cbn in Hd; congruence. }
  unfold execute in Hx.
  destruct sql, args as [|a [|]]; inversion Hx; subst; clear Hx;
    try (rewrite (Harg a) by auto); split; auto.
  - intros cl Hin Hr. apply filter_In. split; [assumption|]. now rewrite Hr.
  - intros c Hin He. apply filter_In. split; [assumption|]. now rewrite He.
Qed.

Lemma step_keeps cutoff w e w' :
  step w e w' -> deletes_before cutoff e ->
  keeps cutoff (composes w) (clones w) (composes w') (clones w').
Proof.
  intros Hs Hd. destruct (is_exec e) eqn:Hx.
  - destruct e as [| |c sql args n err| | | | | |]; try discriminate.
    apply step_exec_inv, exec_cases in Hs. destruct Hs as [_ Hs].
    assert (deletes_before cutoff (EvExec 0%nat sql args n None : Event Z nat)) as Hd'
        by (destruct sql; exact Hd).
    destruct err as [err|].
    + destruct Hs as [[-> ->]|[n' Hx']]; [split; auto|].
      eapply execute_keeps; [|exact Hx']. destruct sql; exact Hd.
    + eapply execute_keeps; eassumption.
  - destruct (step_frame _ _ _ Hs Hx) as [-> ->]. split; auto.
Qed.

Lemma steps_keeps cutoff w t w' :
  steps w t w' -> Forall (deletes_before cutoff) t ->
  keeps cutoff (composes w) (clones w) (composes w') (clones w').
Proof.
  induction 1 as [w|w e w1 t w2 Hs _ IH]; intros Hall; [split; auto|].
  inversion Hall as [|? ? He Hall']; subst.
  destruct (step_keeps cutoff _ _ _ Hs He) as [Hc Hcl].
  destruct (IH Hall') as [Hc' Hcl'].
  destruct (step_incl _ _ _ Hs) as [Hincl _].
  split.
  - intros c Hin Hex. apply Hc', Hex. apply Hc; assumption.
  - intros cl Hin Hr. apply Hcl'; [apply Hcl; assumption|].
    eapply references_mono; [|exact Hr]. apply expiredIds_incl. exact Hincl.
Qed.

(** X7. Whatever its mode and however it ends (normally, aborted by an
    error, with a failed statement that took effect all the same), a run
    only removes rows, and only expired ones: every compose created at
    or after the cutoff is still there, and so is every clone all of
    whose composes were created at or after the cutoff; a run that never
    computed a cutoff leaves both tables as they were. *)
Theorem only_expired_rows_are_deleted fuel url dryRun months w :
  let r := DBCleanup fuel url dryRun months w in
  incl (composes (world_of r)) (composes w)
  /\ incl (clones (world_of r)) (clones w)
  /\ match cutoffOf months (trace_of r) with
     | Some cutoff =>
         (forall c, In c (composes w) -> cutoff <= created_at c ->
                    In c (composes (world_of r)))
         /\ (forall cl, In cl (clones w) ->
                        (forall c, In c (composes w) -> job_id c = compose_id cl ->
                                   cutoff <= created_at c) ->
                        In cl (clones (world_of r)))
     | None => composes (world_of r) = composes w /\ clones (world_of r) = clones w
     end.
Proof.
  cbn zeta. pose proof (sound_DBCleanup fuel url dryRun months w) as Hs.
  destruct (steps_incl _ _ _ Hs) as [Hic Hicl].
  split; [exact Hic|]. split; [exact Hicl|].
  destruct (cutoffOf months (trace_of (DBCleanup fuel url dryRun months w)))
    as [cutoff|] eqn:Hcut.
  - destruct (steps_keeps cutoff _ _ _ Hs (DBCleanup_deletes_before _ _ _ _ _ _ Hcut))
      as [Hc Hcl].
    split.
    + intros c Hin Hle. apply Hc; [assumption|]. unfold expired. apply Z.ltb_ge. exact Hle.
    + intros cl Hin Hall. apply Hcl; [assumption|].
      destruct (references (expiredIds cutoff (composes w)) cl) eqn:Hr; [|reflexivity].
      apply references_true in Hr. unfold expiredIds in Hr. apply in_map_iff in Hr.
      destruct Hr as (c & Hid & Hc'). apply filter_In in Hc'. destruct Hc' as [Hin' He].
      apply expired_lt in He. specialize (Hall c Hin' Hid). lia.
  - destruct (DBCleanup_cutoff fuel url dryRun months w)
      as [(err & Ht)|(pre & tm & post & Ht & Hpre & _)]; cbn zeta in Ht.
    + rewrite Ht in Hs. apply (steps_frame _ _ _ Hs). repeat constructor.
    + rewrite Ht, (cutoffOf_found months pre tm post Hpre) in Hcut. discriminate.
Qed.

(** *** The foreign key of clones into composes *)

Lemma integrity_fewer_clones cs cls cls' :
  incl cls' cls -> integrity cs cls -> integrity cs cls'.
Proof. intros Hincl Hi cl Hin. apply Hi, Hincl, Hin. Qed.

Lemma integrity_after_composes cutoff cs cls :
  integrity cs cls -> noReference cutoff cs cls ->
  integrity (filter (fun c => negb (expired cutoff c)) cs) cls.
Proof.
  intros Hi Hno cl Hin. destruct (Hi cl Hin) as (c & Hc & Hid).
  exists c. split; [|assumption]. apply filter_In. split; [assumption|].
  destruct (expired cutoff c) eqn:He; [|reflexivity].
  apply expired_lt in He. destruct (Hno cl c Hin Hc He (eq_sym Hid)).
Qed.

Lemma delete_clones_integrity w c cutoff n err w' :
  step w (EvExec c sqlDeleteClones [cutoff] n err) w' ->
  integrity (composes w) (clones w) ->
  integrity (composes w') (clones w')
  /\ (err = None -> noReference cutoff (composes w') (clones w')).
Proof.
  intros Hs Hi. apply step_exec_inv, exec_cases in Hs. destruct Hs as [_ Hs].
  cbn [execute] in Hs.
  destruct err as [err|].
  - split; [|discriminate].
    destruct Hs as [[-> ->]|[n' Hx]]; [assumption|].
    injection Hx as Hc Hcl _. rewrite <- Hc, <- Hcl.
    eapply integrity_fewer_clones; [apply incl_filter|assumption].
  - injection Hs as Hc Hcl _. rewrite <- Hc, <- Hcl. split.
    + eapply integrity_fewer_clones; [apply incl_filter|assumption].
    + intros _. apply noReference_after_delete.
Qed.

Lemma delete_composes_integrity w c cutoff n err w' :
  step w (EvExec c sqlDeleteComposes [cutoff] n err) w' ->
  integrity (composes w) (clones w) ->
  noReference cutoff (composes w) (clones w) ->
  integrity (composes w') (clones w').
Proof.
  intros Hs Hi Hno. apply step_exec_inv, exec_cases in Hs. destruct Hs as [_ Hs].
  cbn [execute] in Hs.
  destruct err as [err|].
  - destruct Hs as [[-> ->]|[n' Hx]]; [assumption|].
    injection Hx as Hc Hcl _. rewrite <- Hc, <- Hcl.
    apply integrity_after_composes; assumption.
  - injection Hs as Hc Hcl _. rewrite <- Hc, <- Hcl.
    apply integrity_after_composes; assumption.
Qed.

Lemma reclaim_frame w c n err w' :
  step w (EvExec c sqlVacuumAnalyze [] n err) w' ->
  composes w' = composes w /\ clones w' = clones w.
Proof.
  intros Hs. apply step_exec_inv, exec_cases in Hs. destruct Hs as [_ Hs].
  cbn [execute] in Hs.
  destruct err as [err|].
  - destruct Hs as [[-> ->]|[n' Hx]]; [auto|]. injection Hx as Hc Hcl _. auto.
  - injection Hs as Hc Hcl _. auto.
Qed.

Lemma pass_integrity c cutoff r1 r2 r3 w w' :
  steps w (iteration c cutoff r1 r2 r3) w' ->
  integrity (composes w) (clones w) -> integrity (composes w') (clones w').
Proof.
  unfold iteration. intros Hs Hi.
  inversion Hs as [|? ? w1 ? ? H1 Hs1]; subst; clear Hs.
  inversion Hs1 as [|? ? w2 ? ? H2 Hs2]; subst; clear Hs1.
  inversion Hs2 as [|? ? w3 ? ? H3 Hs3]; subst; clear Hs2.
  inversion Hs3; subst; clear Hs3.
  destruct (delete_clones_integrity _ _ _ _ _ _ H1 Hi) as [Hi1 Hno].
  pose proof (delete_composes_integrity _ _ _ _ _ _ H2 Hi1 (Hno eq_refl)) as Hi2.
  destruct (reclaim_frame _ _ _ _ _ H3) as [-> ->]. exact Hi2.
Qed.

Lemma log_frame w lvl format args t w' :
  steps w (EvLogf lvl format args :: t) w' -> steps w t w'.
Proof.
  intros Hs. inversion Hs as [|? ? w1 ? ? H1 Hs1]; subst. inversion H1; subst. exact Hs1.
Qed.

Lemma LiveLoop_integrity c cutoff t ex :
  LiveLoop c cutoff t ex ->
  forall w w', steps w t w' ->
    integrity (composes w) (clones w) -> integrity (composes w') (clones w').
Proof.
  induction 1 as [r1 r3|r1 r2 r3 rest ex Hnz Hl IH| |r1 e0|r1 r2 e0|r1 r2 r3 e0];
    intros w w' Hs Hi.
  - eapply pass_integrity; eassumption.
  - apply steps_app_inv in Hs. destruct Hs as (w1 & Hit & Hrest).
    apply log_frame in Hrest. apply (IH _ _ Hrest). eapply pass_integrity; eassumption.
  - inversion Hs; subst. exact Hi.
  - inversion Hs as [|? ? w1 ? ? H1 Hs1]; subst. apply log_frame in Hs1.
    inversion Hs1; subst.
    apply (delete_clones_integrity _ _ _ _ _ _ H1 Hi).
  - inversion Hs as [|? ? w1 ? ? H1 Hs1]; subst.
    inversion Hs1 as [|? ? w2 ? ? H2 Hs2]; subst. apply log_frame in Hs2.
    inversion Hs2; subst.
    destruct (delete_clones_integrity _ _ _ _ _ _ H1 Hi) as [Hi1 Hno].
    exact (delete_composes_integrity _ _ _ _ _ _ H2 Hi1 (Hno eq_refl)).
  - inversion Hs as [|? ? w1 ? ? H1 Hs1]; subst.
    inversion Hs1 as [|? ? w2 ? ? H2 Hs2]; subst.
    inversion Hs2 as [|? ? w3 ? ? H3 Hs3]; subst. apply log_frame in Hs3.
    inversion Hs3; subst.
    destruct (delete_clones_integrity _ _ _ _ _ _ H1 Hi) as [Hi1 Hno].
    pose proof (delete_composes_integrity _ _ _ _ _ _ H2 Hi1 (Hno eq_refl)) as Hi2.
    destruct (reclaim_frame _ _ _ _ _ H3) as [-> ->]. exact Hi2.
Qed.

(** X8. If every clone refers to a compose that is there when a run
    starts, the same holds when it ends, however it ends: a compose is
    only ever deleted after the deletion of its clones has succeeded, so
    no run, not even one aborted between or inside two statements,
    leaves a clone without its compose. *)
Theorem run_keeps_the_foreign_key fuel url dryRun months w :
  integrity (composes w) (clones w) ->
  integrity (composes (world_of (DBCleanup fuel url dryRun months w)))
            (clones (world_of (DBCleanup fuel url dryRun months w))).
Proof.
  intros Hi. pose proof (sound_DBCleanup fuel url dryRun months w) as Hs.
  destruct dryRun.
  { destruct (steps_frame _ _ _ Hs (DBCleanup_dry_no_exec fuel url months w)) as [-> ->].
    exact Hi. }
  destruct (DBCleanup_shape fuel url false months w)
    as [(err & Ht & _)|(c & t1 & tm & w' & t3 & Ht & Hr1 & Hex)].
  { rewrite Ht in Hs. destruct (steps_frame _ _ _ Hs) as [-> ->]; [repeat constructor|].
    exact Hi. }
  cbn zeta in Ht, Hex.
  pose proof (cleanupLoop_live fuel {| Conn := c |} (retentionDate tm months) w') as HL.
  rewrite Ht in Hs. apply steps_run_inv in Hs.
  destruct Hs as (wa & wb & wc & wd & H1 & H2 & H3 & H4 & H5).
  apply step_frame in H1; [|reflexivity]. destruct H1 as [Hca Hla].
  apply steps_frame in H2; [|eapply Forall_impl; [|exact Hr1]; apply report_no_exec].
  destruct H2 as [Hcb Hlb].
  apply step_frame in H3; [|reflexivity]. destruct H3 as [Hcc Hlc].
  assert (integrity (composes wd) (clones wd)) as Hid.
  { apply (LiveLoop_integrity _ _ _ _ HL _ _ H4).
    rewrite Hcc, Hcb, Hca, Hlc, Hlb, Hla. exact Hi. }
  assert (reports t3) as Hr3.
  { destruct (value_of (cleanupLoop fuel {| Conn := c |} false (retentionDate tm months) w'));
      destruct Hex as [Ht3 _]; subst; try constructor. exact Ht3. }
  apply steps_frame in H5; [|eapply Forall_impl; [|exact Hr3]; apply report_no_exec].
  destruct H5 as [-> ->]. exact Hid.
Qed.

(** *** The numbers the methods hand back *)

Lemma count_removed {A} (p : A -> bool) (l : list A) :
  Z.of_nat (List.length (filter (fun x => negb (p x)) l)) + count p l
  = Z.of_nat (List.length l).
Proof. unfold count. rewrite <- (filter_length p l). lia. Qed.

Lemma count_nonneg {A} (p : A -> bool) (l : list A) : 0 <= count p l.
Proof. unfold count. lia. Qed.

Lemma DeleteClones_ok d cutoff w n :
  value_of (DeleteClones d cutoff w) = (n, None) ->
  execute sqlDeleteClones [cutoff] (composes w) (clones w)
  = Some (composes (world_of (DeleteClones d cutoff w)),
          clones (world_of (DeleteClones d cutoff w)), n).
Proof.
  unfold DeleteClones, bind, Exec, ret. cbn [pgx_Exec env].
  destruct (exec (Conn d) sqlDeleteClones [cutoff] w) as [w' [n' [err|]]] eqn:Hx;
    cbn [value_of world_of fst snd]; intros Hv; inversion Hv; subst.
  apply exec_cases in Hx. apply Hx.
Qed.

Lemma DeleteComposes_ok d cutoff w n :
  value_of (DeleteComposes d cutoff w) = (n, None) ->
  execute sqlDeleteComposes [cutoff] (composes w) (clones w)
  = Some (composes (world_of (DeleteComposes d cutoff w)),
          clones (world_of (DeleteComposes d cutoff w)), n).
Proof.
  unfold DeleteComposes, bind, Exec, ret. cbn [pgx_Exec env].
  destruct (exec (Conn d) sqlDeleteComposes [cutoff] w) as [w' [n' [err|]]] eqn:Hx;
    cbn [value_of world_of fst snd]; intros Hv; inversion Hv; subst.
  apply exec_cases in Hx. apply Hx.
Qed.

Lemma queryRow_ok c sql args w w' n :
  queryRow c sql args w = (w', Ok n) ->
  exists w1, composes w1 = composes w /\ clones w1 = clones w
             /\ evaluate sql args w1 = Some n.
Proof.
  unfold queryRow. destruct (isOpen c w); [|discriminate].
  destruct (popFault_frame (advance w)) as (Hc & Hl & _). cbn zeta in Hc, Hl.
  destruct (popFault (advance w)) as [w1 [f|]]; [discriminate|].
  cbn [fst advance composes clones] in Hc, Hl.
  destruct (evaluate sql args w1) as [m|] eqn:He; intros H; inversion H; subst.
  exists w'. auto.
Qed.

Lemma ExpiredClonesCount_ok d cutoff w n :
  value_of (ExpiredClonesCount d cutoff w) = (n, None) ->
  n = count (references (expiredIds cutoff (composes w))) (clones w).
Proof.
  unfold ExpiredClonesCount, bind, QueryRowScan, ret. cbn [pgx_QueryRow env].
  destruct (queryRow (Conn d) sqlExpiredClonesCount [cutoff] w) as [w' [m|err]] eqn:Hq;
    cbn [value_of fst snd]; intros Hv; inversion Hv; subst.
  apply queryRow_ok in Hq. destruct Hq as (w1 & Hc & Hl & He).
  cbn [evaluate] in He. rewrite Hc, Hl in He. congruence.
Qed.

Lemma ExpiredComposesCount_ok d cutoff w n :
  value_of (ExpiredComposesCount d cutoff w) = (n, None) ->
  n = count (expired cutoff) (composes w).
Proof.
  unfold ExpiredComposesCount, bind, QueryRowScan, ret. cbn [pgx_QueryRow env].
  destruct (queryRow (Conn d) sqlExpiredComposesCount [cutoff] w) as [w' [m|err]] eqn:Hq;
    cbn [value_of fst snd]; intros Hv; inversion Hv; subst.
  apply queryRow_ok in Hq. destruct Hq as (w1 & Hc & Hl & He).
  cbn [evaluate] in He. rewrite Hc in He. congruence.
Qed.

(** X9. The count a deletion method returns with a nil error is the
    number of rows that left its table: the table is shorter by that
    many rows, the count is not negative, and the other table is as it
    was. *)
Theorem deletions_return_rows_removed d cutoff w :
  (snd (value_of (DeleteClones d cutoff w)) = None ->
   let w' := world_of (DeleteClones d cutoff w) in
   let n := fst (value_of (DeleteClones d cutoff w)) in
   Z.of_nat (List.length (clones w')) + n = Z.of_nat (List.length (clones w))
   /\ 0 <= n /\ composes w' = composes w)
  /\ (snd (value_of (DeleteComposes d cutoff w)) = None ->
      let w' := world_of (DeleteComposes d cutoff w) in
      let n := fst (value_of (DeleteComposes d cutoff w)) in
      Z.of_nat (List.length (composes w')) + n = Z.of_nat (List.length (composes w))
      /\ 0 <= n /\ clones w' = clones w).
Proof.
  split; intros Hv; cbn zeta.
  - pose proof (DeleteClones_ok d cutoff w (fst (value_of (DeleteClones d cutoff w)))) as Hx.
    destruct (value_of (DeleteClones d cutoff w)) as [n err]. cbn [fst snd] in *. subst err.
    specialize (Hx eq_refl). cbn [execute] in Hx. injection Hx as Hc Hcl Hn.
    rewrite <- Hc, <- Hcl, <- Hn.
    repeat split; [apply count_removed|apply count_nonneg].
  - pose proof (DeleteComposes_ok d cutoff w (fst (value_of (DeleteComposes d cutoff w)))) as Hx.
    destruct (value_of (DeleteComposes d cutoff w)) as [n err]. cbn [fst snd] in *. subst err.
    specialize (Hx eq_refl). cbn [execute] in Hx. injection Hx as Hc Hcl Hn.
    rewrite <- Hc, <- Hcl, <- Hn.
    repeat split; [apply count_removed|apply count_nonneg].
Qed.

(** X10. On the same tables, the number a count method returns with a
    nil error is the number the matching deletion method returns with a
    nil error: what a dry run reports is what the first pass of a live
    run deletes. *)
Theorem counts_agree_with_deletions d d' cutoff w1 w2 :
  composes w1 = composes w2 ->
  clones w1 = clones w2 ->
  (snd (value_of (ExpiredClonesCount d cutoff w1)) = None ->
   snd (value_of (DeleteClones d' cutoff w2)) = None ->
   fst (value_of (ExpiredClonesCount d cutoff w1)) = fst (value_of (DeleteClones d' cutoff w2)))
  /\ (snd (value_of (ExpiredComposesCount d cutoff w1)) = None ->
      snd (value_of (DeleteComposes d' cutoff w2)) = None ->
      fst (value_of (ExpiredComposesCount d cutoff w1))
      = fst (value_of (DeleteComposes d' cutoff w2))).
Proof.
  intros Hc Hl. split; intros Hn Hm.
  - pose proof (ExpiredClonesCount_ok d cutoff w1
                  (fst (value_of (ExpiredClonesCount d cutoff w1)))) as Hq.
    pose proof (DeleteClones_ok d' cutoff w2 (fst (value_of (DeleteClones d' cutoff w2)))) as Hx.
    destruct (value_of (ExpiredClonesCount d cutoff w1)) as [n e1].
    destruct (value_of (DeleteClones d' cutoff w2)) as [m e2]. cbn [fst snd] in *. subst e1 e2.
    specialize (Hq eq_refl). specialize (Hx eq_refl).
    cbn [execute] in Hx. injection Hx as _ _ Hx. rewrite Hq, <- Hx, Hc, Hl. reflexivity.
  - pose proof (ExpiredComposesCount_ok d cutoff w1
                  (fst (value_of (ExpiredComposesCount d cutoff w1)))) as Hq.
    pose proof (DeleteComposes_ok d' cutoff w2
                  (fst (value_of (DeleteComposes d' cutoff w2)))) as Hx.
    destruct (value_of (ExpiredComposesCount d cutoff w1)) as [n e1].
    destruct (value_of (DeleteComposes d' cutoff w2)) as [m e2]. cbn [fst snd] in *. subst e1 e2.
    specialize (Hq eq_refl). specialize (Hx eq_refl).
    cbn [execute] in Hx. injection Hx as _ _ Hx. rewrite Hq, <- Hx, Hc. reflexivity.
Qed.

(** *** The number of passes *)

Lemma run_iterations url (c : nat) t1 (tm : Z) tl t3 :
  reports t1 -> reports t3 ->
  iterations (EvConnect url (Ok c) :: t1 ++ EvNow tm :: tl ++ t3) = iterations tl.
Proof.
  intros H1 H3.
  change (EvConnect url (Ok c) :: t1 ++ EvNow tm :: tl ++ t3)
    with ([EvConnect url (Ok c)] ++ t1 ++ [EvNow tm] ++ tl ++ t3).
  rewrite !iterations_app, (reports_iterations t1 H1), (reports_iterations t3 H3).
  change (iterations [EvConnect url (Ok c)]) with O.
  change (iterations [EvNow tm]) with O. lia.
Qed.

Lemma LiveLoop_passes c cutoff t ex :
  LiveLoop c cutoff t ex -> ex = Broke ->
  forall w w', steps w t w' ->
    (count (expired cutoff) (composes w) = 0 -> iterations t = 1%nat)
    /\ (count (expired cutoff) (composes w) <> 0 -> (2 <= iterations t)%nat).
Proof.
  destruct 1 as [r1 r3|r1 r2 r3 rest ex Hnz Hl| | | |]; intros Hex w w' Hs; try discriminate.
  - split; [reflexivity|]. intros Hne.
    destruct (iteration_effect _ _ _ _ _ _ _ Hs) as (_ & _ & _ & Hr2). congruence.
  - apply steps_app_inv in Hs. destruct Hs as (w1 & Hit & _).
    destruct (iteration_effect _ _ _ _ _ _ _ Hit) as (_ & _ & _ & Hr2).
    split; [intros Hz; congruence|]. intros _.
    destruct (LiveLoop_broke _ _ _ _ Hl Hex) as (pre & q1 & q3 & ->).
    rewrite iterations_app.
    change (EvLogf Info "Deleted results for %d" [VInt r2] :: pre ++ iteration c cutoff q1 0 q3)
      with ([EvLogf Info "Deleted results for %d" [VInt r2]] ++ pre ++ iteration c cutoff q1 0 q3).
    rewrite !iterations_app.
    change (iterations (iteration c cutoff r1 r2 r3)) with 1%nat.
    change (iterations (iteration c cutoff q1 0 q3)) with 1%nat. lia.
Qed.

(** X11. A live run without scheduled faults returns no error after
    exactly one pass when no compose is older than its cutoff, and after
    exactly two passes otherwise: every run deletes and reclaims at
    least once, and once more after a pass that deleted something. *)
Theorem passes_of_a_faultless_run fuel url months w :
  faults w = [] ->
  (2 <= fuel)%nat ->
  let r := DBCleanup fuel url false months w in
  exists cutoff,
    cutoffOf months (trace_of r) = Some cutoff
    /\ value_of r = Returned None
    /\ iterations (trace_of r)
       = if count (expired cutoff) (composes w) =? 0 then 1%nat else 2%nat.
Proof.
  intros Hf Hfuel. cbn zeta.
  pose proof (sound_DBCleanup fuel url false months w) as Hs.
  destruct (DBCleanup_shape fuel url false months w)
    as [(err & Ht & Hv)|(c & t1 & tm & w' & t3 & Ht & Hr1 & Hex)].
  { rewrite Ht in Hs. inversion Hs as [|? ? wa ? ? H1 _]; subst.
    destruct (connect_healthy _ _ _ _ H1 Hf) as (c & Hc & _). discriminate. }
  cbn zeta in Ht, Hex.
  pose proof (cleanupLoop_live fuel {| Conn := c |} (retentionDate tm months) w') as HL.
  destruct (cleanupLoop_two_passes fuel {| Conn := c |} (retentionDate tm months) w' Hfuel)
    as [Hterm Hiter].
  rewrite Ht in Hs. apply steps_run_inv in Hs.
  destruct Hs as (wa & wb & wc & wd & H1 & H2 & H3 & H4 & H5).
  destruct (connect_healthy _ _ _ _ H1 Hf) as (c' & Hc & Hh). inversion Hc; subst c'.
  assert (healthy c wc) as Hhc.
  { eapply step_healthy; [exact H3|reflexivity|].
    eapply steps_healthy; [exact H2| |exact Hh].
    eapply Forall_impl; [|exact Hr1]. apply report_no_close. }
  pose proof (LiveLoop_healthy _ _ _ _ HL _ _ H4 Hhc) as Hnoabort.
  apply step_frame in H1; [|reflexivity]. destruct H1 as [Hca _].
  apply steps_frame in H2; [|eapply Forall_impl; [|exact Hr1]; apply report_no_exec].
  destruct H2 as [Hcb _].
  apply step_frame in H3; [|reflexivity]. destruct H3 as [Hcc _].
  destruct (value_of (cleanupLoop fuel {| Conn := c |} false (retentionDate tm months) w'))
    as [|err|] eqn:Hl; [|destruct (Hnoabort err eq_refl)|congruence].
  destruct Hex as [Hr3 Hv].
  exists (retentionDate tm months). split; [|split; [exact Hv|]].
  - rewrite Ht. apply (cutoffOf_found months (EvConnect url (Ok c) :: t1)).
    constructor; [split; reflexivity|].
    eapply Forall_impl; [|exact Hr1]. apply report_before_cutoff.
  - rewrite Ht, (run_iterations _ _ _ _ _ _ Hr1 Hr3).
    destruct (LiveLoop_passes _ _ _ _ HL eq_refl _ _ H4) as [Hone Htwo].
    rewrite Hcc, Hcb, Hca in Hone, Htwo.
    destruct (count (expired (retentionDate tm months)) (composes w) =? 0) eqn:Hz.
    + apply Z.eqb_eq in Hz. auto.
    + apply Z.eqb_neq in Hz. specialize (Htwo Hz). lia.
Qed.

(** *** What an aborted run has done *)

Lemma steps_cons_inv w e t w' :
  steps w (e :: t) w' -> exists w1, step w e w1 /\ steps w1 t w'.
Proof. intros Hs. inversion Hs; subst. eauto. Qed.


Lemma LiveLoop_first c cutoff t ex :
  LiveLoop c cutoff t ex ->
  (exists c' args n, In (EvExec c' sqlDeleteClones args n None) t) ->
  exists r1 rest, t = EvExec c sqlDeleteClones [cutoff] r1 None :: rest.
Proof.
  destruct 1 as [r1 r3|r1 r2 r3 rest ex Hnz Hl| |r1 e0|r1 r2 e0|r1 r2 r3 e0];
    intros (c' & args & n & Hin); unfold iteration; cbn [app]; try (eexists _, _; reflexivity).
  - destruct Hin.
  - destruct Hin as [Hin|[Hin|[]]]; discriminate.
Qed.

Lemma reports_not_exec t c sql args n err :
  reports t -> In (EvExec c sql args n err) t -> False.
Proof.
  intros Hr Hin. unfold reports in Hr. rewrite Forall_forall in Hr.
  specialize (Hr _ Hin). discriminate.
Qed.

(** X12. Deletions that succeeded are not undone by what follows: in a
    live run whose first clone deletion succeeded, whether the run then
    returns no error or is aborted by the compose deletion or the
    reclaim, no clone is left that refers to a compose created before
    the cutoff. *)
Theorem clone_deletion_survives_abort fuel url months w cutoff :
  let r := DBCleanup fuel url false months w in
  cutoffOf months (trace_of r) = Some cutoff ->
  (exists c args n, In (EvExec c sqlDeleteClones args n None) (trace_of r)) ->
  noReference cutoff (composes w) (clones (world_of r)).
Proof.
  cbn zeta. intros Hcut (c' & args & n & Hin).
  pose proof (sound_DBCleanup fuel url false months w) as Hs.
  destruct (DBCleanup_shape fuel url false months w)
    as [(err & Ht & _)|(c & t1 & tm & w' & t3 & Ht & Hr1 & Hex)].
  { rewrite Ht in Hin. destruct Hin as [Hin|[]]. discriminate. }
  cbn zeta in Ht, Hex.
  pose proof (cleanupLoop_live fuel {| Conn := c |} (retentionDate tm months) w') as HL.
  assert (retentionDate tm months = cutoff) as Hcutoff.
  { assert (cutoffOf months (trace_of (DBCleanup fuel url false months w))
            = Some (retentionDate tm months)) as Hfound; [|congruence].
    rewrite Ht. apply (cutoffOf_found months (EvConnect url (Ok c) :: t1)).
    constructor; [split; reflexivity|].
    eapply Forall_impl; [|exact Hr1]. apply report_before_cutoff. }
  rewrite Hcutoff in Ht, Hex, HL. clear Hcutoff Hcut.
  set (l := cleanupLoop fuel {| Conn := c |} false cutoff w') in *.
  assert (reports t3) as Hr3.
  { destruct (value_of l); destruct Hex as [Ht3 _]; subst; try constructor. exact Ht3. }
  assert (In (EvExec c' sqlDeleteClones args n None) (trace_of l)) as Hinl.
  { rewrite Ht in Hin. destruct Hin as [Hin|Hin]; [discriminate|].
    apply in_app_or in Hin. destruct Hin as [Hin|Hin];
      [destruct (reports_not_exec _ _ _ _ _ _ Hr1 Hin)|].
    destruct Hin as [Hin|Hin]; [discriminate|].
    apply in_app_or in Hin. destruct Hin as [Hin|Hin]; [exact Hin|].
    destruct (reports_not_exec _ _ _ _ _ _ Hr3 Hin). }
  destruct (LiveLoop_first _ _ _ _ HL (ex_intro _ c' (ex_intro _ args (ex_intro _ n Hinl))))
    as (r1 & rest & Hfirst).
  rewrite Ht, Hfirst in Hs. apply steps_run_inv in Hs.
  destruct Hs as (wa & wb & wc & wd & H1 & H2 & H3 & H4 & H5).
  apply step_frame in H1; [|reflexivity]. destruct H1 as [Hca _].
  apply steps_frame in H2; [|eapply Forall_impl; [|exact Hr1]; apply report_no_exec].
  destruct H2 as [Hcb _].
  apply step_frame in H3; [|reflexivity]. destruct H3 as [Hcc _].
  apply steps_cons_inv in H4. destruct H4 as (w1 & Hdel & Hrest).
  apply step_exec_inv, exec_cases in Hdel. destruct Hdel as [_ Hdel].
  cbn [execute] in Hdel. injection Hdel as _ Hcl _.
  destruct (steps_incl _ _ _ Hrest) as [_ Hi1].
  destruct (steps_incl _ _ _ H5) as [_ Hi2].
  intros cl x Hincl. apply Hi2, Hi1 in Hincl. rewrite <- Hcl in Hincl.
  rewrite Hcc, Hcb, Hca in Hincl. revert cl x Hincl. apply noReference_after_delete.
Qed.

(** *** What a dry run reports *)

Lemma queryRow_healthy c sql args w w' r :
  healthy c w -> queryRow c sql args w = (w', r) ->
  healthy c w'
  /\ composes w' = composes w /\ clones w' = clones w
  /\ r = match evaluate sql args w' with
         | Some n => Ok n
         | None => Err "ERROR: statement rejected"
         end.
Proof.
  intros [Hf Hin] Hq. unfold queryRow in Hq.
  apply isOpen_In in Hin. rewrite Hin in Hq.
  rewrite (popFault_nil (advance w) Hf) in Hq.
  apply isOpen_In in Hin.
  destruct (evaluate sql args (advance w)) as [n|] eqn:He; inversion Hq; subst;
    rewrite He; repeat split; auto.
Qed.

Lemma step_queryrow_inv w c sql args r w' :
  step w (EvQueryRow c sql args r) w' -> queryRow c sql args w = (w', r).
Proof. intros Hs. inversion Hs; subst. assumption. Qed.

(** X13. A dry run without scheduled faults reports the true numbers:
    its report line carries the number of composes created before the
    cutoff and the number of clones that refer to one of them, as the
    tables hold them. *)
Theorem faultless_dry_run_reports_true_counts fuel url months w :
  faults w = [] ->
  fuel <> O ->
  let r := DBCleanup fuel url true months w in
  exists cutoff,
    cutoffOf months (trace_of r) = Some cutoff
    /\ In (EvLogf Info "Dryrun, expired composes count: %d (affecting %d clones)"
                  [VInt (count (expired cutoff) (composes w));
                   VInt (count (references (expiredIds cutoff (composes w))) (clones w))])
          (trace_of r).
Proof.
  intros Hf Hfuel. cbn zeta.
  pose proof (sound_DBCleanup fuel url true months w) as Hs.
  destruct (DBCleanup_shape fuel url true months w)
    as [(err & Ht & Hv)|(c & t1 & tm & w' & t3 & Ht & Hr1 & Hex)].
  { rewrite Ht in Hs. apply steps_cons_inv in Hs. destruct Hs as (wa & H1 & _).
    destruct (connect_healthy _ _ _ _ H1 Hf) as (c & Hc & _). discriminate. }
  cbn zeta in Ht, Hex. destruct fuel as [|fuel]; [congruence|].
  destruct (cleanupLoop_dry fuel {| Conn := c |} (retentionDate tm months) w')
    as (rc & r & Hl & _).
  rewrite Hl in Ht. cbn [Conn] in Ht. clear Hex Hl.
  exists (retentionDate tm months). split.
  { rewrite Ht. apply (cutoffOf_found months (EvConnect url (Ok c) :: t1)).
    constructor; [split; reflexivity|].
    eapply Forall_impl; [|exact Hr1]. apply report_before_cutoff. }
  set (cutoff := retentionDate tm months) in *. clearbody cutoff.
  set (run := DBCleanup (S fuel) url true months w) in *. clearbody run.
  rewrite Ht in Hs. apply steps_run_inv in Hs.
  destruct Hs as (wa & wb & wc & wd & H1 & H2 & H3 & H4 & _).
  destruct (connect_healthy _ _ _ _ H1 Hf) as (c' & Hc & Hh).
  injection Hc as Hc. subst c'.
  assert (healthy c wc) as Hhc.
  { eapply step_healthy; [exact H3|reflexivity|].
    eapply steps_healthy; [exact H2| |exact Hh].
    eapply Forall_impl; [|exact Hr1]. apply report_no_close. }
  apply step_frame in H1; [|reflexivity]. destruct H1 as [Hca Hla].
  apply steps_frame in H2; [|eapply Forall_impl; [|exact Hr1]; apply report_no_exec].
  destruct H2 as [Hcb Hlb].
  apply step_frame in H3; [|reflexivity]. destruct H3 as [Hcc Hlc].
  unfold dryRunTrace in H4.
  apply steps_cons_inv in H4. destruct H4 as (w1 & Hq1 & Hrest).
  apply step_queryrow_inv in Hq1.
  destruct (queryRow_healthy _ _ _ _ _ _ Hhc Hq1) as (Hh1 & Hc1 & Hl1 & Hrc).
  cbn [evaluate] in Hrc. subst rc. cbn [warn_if app] in Hrest.
  apply steps_cons_inv in Hrest. destruct Hrest as (w2 & Hq2 & _).
  apply step_queryrow_inv in Hq2.
  destruct (queryRow_healthy _ _ _ _ _ _ Hh1 Hq2) as (_ & Hc2 & Hl2 & Hr).
  cbn [evaluate] in Hr. subst r.
  rewrite Ht. unfold dryRunTrace. cbn [warn_if app count_of].
  rewrite Hc2, Hc1, Hl1, Hcc, Hcb, Hca, Hlc, Hlb, Hla.
  right. apply in_or_app. right. right. right. right. left. reflexivity.
Qed.

End MoreOnTables.

(** ** More worked runs *)

Section MoreRuns.
Import Rel.

(** Of [sampleRows] the first two rows are logged, the scan error of the
    third is returned, the fourth row and the error of the cursor are
    never looked at, and the cursor is released. *)
Example stats_on_sample_rows :
  LogVacuumStats {| Conn := 0%nat |} (connectedWorld (Ok sampleRows))
  = (mkWorld (fst sampleTables) (snd sampleTables) [0%nat] 1 1793452801 1 [] [],
     [ EvQuery 0%nat sqlVacuumStats None;
       statsRecord (mkStatRow "composes" "16 kB" 2 0 0 2 0 0 0 0 0 None None None None);
       statsRecord (mkStatRow "clones" "8192 bytes" 2 0 0 2 0 1 0 1 0
                              (Some 1793000000) None None None);
       EvRowsClose ],
     (0, Some "scan failed")).
Proof. vm_compute. reflexivity. Qed.

Lemma connection_failure_ends_run_witness :
  DBCleanup 3 "postgres://db" false 1 refusedWorld
  = (fst (connect "postgres://db" refusedWorld),
     [EvConnect "postgres://db" (Err "connection refused")],
     Returned (Some "connection refused")).
Proof.
  apply (connection_failure_ends_run 3 "postgres://db" false 1 refusedWorld).
  vm_compute. reflexivity.
Defined.

Lemma LogVacuumStats_logs_rows_until_scan_fails_witness :
  trace_of (LogVacuumStats {| Conn := 0%nat |} (connectedWorld (Ok sampleRows)))
  = EvQuery 0%nat sqlVacuumStats None
      :: map statsRecord (scanned (fetched sampleRows)) ++ [EvRowsClose]
  /\ world_of (LogVacuumStats {| Conn := 0%nat |} (connectedWorld (Ok sampleRows)))
     = fst (query 0%nat sqlVacuumStats (connectedWorld (Ok sampleRows))).
Proof.
  apply (LogVacuumStats_logs_rows_until_scan_fails
           {| Conn := 0%nat |} (connectedWorld (Ok sampleRows))).
  vm_compute. reflexivity.
Defined.

Lemma LogVacuumStats_error_witness :
  snd (value_of (LogVacuumStats {| Conn := 0%nat |} (connectedWorld (Ok sampleRows))))
  = Some "scan failed".
Proof.
  apply (proj1 (proj2 (LogVacuumStats_error {| Conn := 0%nat |}
                                            (connectedWorld (Ok sampleRows))))
               sampleRows "scan failed").
  - vm_compute. reflexivity.
  - vm_compute. reflexivity.
Defined.

Lemma dry_run_counts_once_witness :
  value_of (DBCleanup 1 "postgres://db" true 1 observationalFailures) = Returned None.
Proof.
  destruct (dry_run_counts_once 1 "postgres://db" 1 observationalFailures
              (fst (connect "postgres://db" observationalFailures)) 0%nat)
    as (t1 & tm & rc & r & t3 & _ & _ & _ & Hv).
  - vm_compute. reflexivity.
  - discriminate.
  - exact Hv.
Defined.

Lemma live_run_leaves_the_unexpired_witness :
  exists cutoff,
    cutoffOf 1 (trace_of (DBCleanup 3 "postgres://db" false 1 (sampleWorld 1 [] [])))
    = Some cutoff
    /\ composes (world_of (DBCleanup 3 "postgres://db" false 1 (sampleWorld 1 [] [])))
       = filter (fun c => negb (expired cutoff c)) (composes (sampleWorld 1 [] []))
    /\ clones (world_of (DBCleanup 3 "postgres://db" false 1 (sampleWorld 1 [] [])))
       = filter (fun cl => negb (references
                                   (expiredIds cutoff (composes (sampleWorld 1 [] []))) cl))
                (clones (sampleWorld 1 [] [])).
Proof.
  apply (live_run_leaves_the_unexpired 3 "postgres://db" 1 (sampleWorld 1 [] [])).
  vm_compute. reflexivity.
Defined.

(** The run aborted by [composesFault] has kept the fresh compose. *)
Lemma only_expired_rows_are_deleted_witness :
  In (mkCompose "fresh" 1793404800)
     (composes (world_of (DBCleanup 3 "postgres://db" false 1
                                    (sampleWorld 1 composesFault [])))).
Proof.
  assert (cutoffOf 1 (trace_of (DBCleanup 3 "postgres://db" false 1
                                          (sampleWorld 1 composesFault [])))
          = Some 1790860802) as Hcut by (vm_compute; reflexivity).
  pose proof (only_expired_rows_are_deleted 3 "postgres://db" false 1
                                            (sampleWorld 1 composesFault [])) as H.
  cbn zeta in H. destruct H as (_ & _ & H). rewrite Hcut in H. destruct H as [Hc _].
  apply Hc.
  - right. left. reflexivity.
  - vm_compute. discriminate.
Defined.

Lemma run_keeps_the_foreign_key_witness :
  integrity
    (composes (world_of (DBCleanup 3 "postgres://db" false 1 (sampleWorld 1 composesFault []))))
    (clones (world_of (DBCleanup 3 "postgres://db" false 1 (sampleWorld 1 composesFault [])))).
Proof.
  apply (run_keeps_the_foreign_key 3 "postgres://db" false 1 (sampleWorld 1 composesFault [])).
  intros cl [<-|[<-|[]]].
  - exists (mkCompose "old" 1788182400). split; [left; reflexivity|reflexivity].
  - exists (mkCompose "fresh" 1793404800). split; [right; left; reflexivity|reflexivity].
Defined.

Lemma deletions_return_rows_removed_witness :
  let r := DeleteClones {| Conn := 0%nat |} 1790860802 (connectedWorld (Ok sampleRows)) in
  Z.of_nat (List.length (clones (world_of r))) + fst (value_of r)
  = Z.of_nat (List.length (clones (connectedWorld (Ok sampleRows))))
  /\ 0 <= fst (value_of r)
  /\ composes (world_of r) = composes (connectedWorld (Ok sampleRows)).
Proof.
  cbn zeta.
  apply (proj1 (deletions_return_rows_removed {| Conn := 0%nat |} 1790860802
                                              (connectedWorld (Ok sampleRows)))).
  vm_compute. reflexivity.
Defined.

Lemma counts_agree_with_deletions_witness :
  fst (value_of (ExpiredComposesCount {| Conn := 0%nat |} 1790860802
                                      (connectedWorld (Ok sampleRows))))
  = fst (value_of (DeleteComposes {| Conn := 0%nat |} 1790860802
                                  (connectedWorld (Ok sampleRows)))).
Proof.
  apply (proj2 (counts_agree_with_deletions
                  {| Conn := 0%nat |} {| Conn := 0%nat |} 1790860802
                  (connectedWorld (Ok sampleRows)) (connectedWorld (Ok sampleRows))
                  eq_refl eq_refl)).
  - vm_compute. reflexivity.
  - vm_compute. reflexivity.
Defined.

Lemma passes_of_a_faultless_run_witness :
  exists cutoff,
    cutoffOf 1 (trace_of (DBCleanup 2 "postgres://db" false 1 (sampleWorld 1 [] [])))
    = Some cutoff
    /\ value_of (DBCleanup 2 "postgres://db" false 1 (sampleWorld 1 [] [])) = Returned None
    /\ iterations (trace_of (DBCleanup 2 "postgres://db" false 1 (sampleWorld 1 [] [])))
       = if count (expired cutoff) (composes (sampleWorld 1 [] [])) =? 0
         then 1%nat else 2%nat.
Proof.
  apply (passes_of_a_faultless_run 2 "postgres://db" 1 (sampleWorld 1 [] [])).
  - reflexivity.
  - apply le_n.
Defined.

(** The run aborted by [composesFault] had deleted the clone of the old
    compose before. *)
Lemma clone_deletion_survives_abort_witness :
  noReference 1790860802 (composes (sampleWorld 1 composesFault []))
    (clones (world_of (DBCleanup 3 "postgres://db" false 1 (sampleWorld 1 composesFault [])))).
Proof.
  apply (clone_deletion_survives_abort 3 "postgres://db" 1 (sampleWorld 1 composesFault [])).
  - vm_compute. reflexivity.
  - exists 0%nat, [1790860802], 1. vm_compute. do 4 right. left. reflexivity.
Defined.

Lemma faultless_dry_run_reports_true_counts_witness :
  exists cutoff,
    cutoffOf 1 (trace_of (DBCleanup 1 "postgres://db" true 1 (sampleWorld 1 [] [])))
    = Some cutoff
    /\ In (EvLogf Info "Dryrun, expired composes count: %d (affecting %d clones)"
                  [VInt (count (expired cutoff) (composes (sampleWorld 1 [] [])));
                   VInt (count (references
                                  (expiredIds cutoff (composes (sampleWorld 1 [] []))))
                               (clones (sampleWorld 1 [] [])))])
          (trace_of (DBCleanup 1 "postgres://db" true 1 (sampleWorld 1 [] []))).
Proof.
  apply (faultless_dry_run_reports_true_counts 1 "postgres://db" 1 (sampleWorld 1 [] [])).
  - reflexivity.
  - discriminate.
Defined.

End MoreRuns.
